(** * sync_splash_color: the splash colour synchroniser, embedded and verified

    A shallow embedding of [scripts/sync_splash_color.py].  The script reads
    the theme colour from [app_config.dart] with one regular expression and
    patches two colour fields of [pubspec.yaml] with two more.

    Conventions.
    - A Python [str] is a list of code points ([char := N]).  The files are
      held as the text that [Path.read_text] returns and [Path.write_text]
      receives; both files exist and decode, and the newline translation of
      text mode is outside the model.
    - The [re] module is embedded as a small backtracking matcher with the
      priorities of Python's engine (leftmost start, greedy repetition), for
      the constructs the three patterns use.
    - [raise SystemExit(msg)] is the outcome [SystemExit msg]; the world
      (both files and standard output) is threaded explicitly. *)

From Stdlib Require Import String Ascii.
From Stdlib Require Import List NArith Bool Arith Lia.
Import ListNotations.

Set Implicit Arguments.
Local Open Scope N_scope.

(** ** Text *)

Definition char := N.
Definition text := list char.

(** An ASCII literal of the source as a list of code points. *)
Definition str (s : string) : text :=
  List.map N_of_ascii (list_ascii_of_string s).

Definition text_eqb (a b : text) : bool :=
  if list_eq_dec N.eq_dec a b then true else false.

Definition NL : char := 10.
Definition QUOTE : char := 34.

(** [\s] on a str pattern: the code points for which [str.isspace] holds. *)
Definition is_space (c : char) : bool :=
  ((9 <=? c) && (c <=? 13)) || ((28 <=? c) && (c <=? 32))
  || (c =? 133) || (c =? 160) || (c =? 5760)
  || ((8192 <=? c) && (c <=? 8202))
  || (c =? 8232) || (c =? 8233) || (c =? 8239) || (c =? 8287) || (c =? 12288).

(** [[0-9A-Fa-f]] *)
Definition is_hex (c : char) : bool :=
  ((48 <=? c) && (c <=? 57)) || ((65 <=? c) && (c <=? 70))
  || ((97 <=? c) && (c <=? 102)).

(** [[#0-9A-Fa-f]] *)
Definition is_val (c : char) : bool := (c =? 35) || is_hex c.

(** [str.upper] on one code point, for the ASCII letters; the script applies
    it to the six captured hexadecimal digits only. *)
Definition upper_char (c : char) : char :=
  if (97 <=? c) && (c <=? 122) then c - 32 else c.

Definition upper (s : text) : text := List.map upper_char s.

(** ** The regular expressions of the [re] module that the script uses *)

Inductive regex : Type :=
| Lit (c : char)                  (* a literal character *)
| Bol                             (* ^ under re.MULTILINE *)
| Eol                             (* $ under re.MULTILINE *)
| Star (p : char -> bool)         (* C* for a one-character class C, greedy *)
| Plus (p : char -> bool)         (* C+ *)
| Times (n : nat) (p : char -> bool)  (* C{n} *)
| Cat (r1 r2 : regex)
| Group (i : nat) (r : regex).    (* the i-th capturing group *)

Fixpoint lit (s : text) (r : regex) : regex :=
  match s with
  | [] => r
  | c :: s' => Cat (Lit c) (lit s' r)
  end.

(** Captured groups: group number and captured text, latest first. *)
Definition captures := list (nat * text).

Fixpoint group (i : nat) (cs : captures) : text :=
  match cs with
  | [] => []
  | (j, s) :: cs' => if Nat.eqb i j then s else group i cs'
  end.

Section Matcher.
Variable R : Type.

(** The continuation receives the character before the current position
    (None at the start of the string), the rest of the subject and the
    groups captured so far. *)
Definition cont := option char -> text -> captures -> option R.

(** Greedy repetition: one more character first, the continuation at the
    current position when that fails. *)
Fixpoint star (p : char -> bool) (prev : option char) (s : text)
         (k : option char -> text -> option R) : option R :=
  match s with
  | c :: s' =>
      if p c then
        match star p (Some c) s' k with
        | Some r => Some r
        | None => k prev s
        end
      else k prev s
  | [] => k prev s
  end.

Fixpoint times (n : nat) (p : char -> bool) (prev : option char) (s : text)
         (k : option char -> text -> option R) : option R :=
  match n with
  | O => k prev s
  | S n' =>
      match s with
      | c :: s' => if p c then times n' p (Some c) s' k else None
      | [] => None
      end
  end.

Definition at_bol (prev : option char) : bool :=
  match prev with
  | None => true
  | Some c => c =? NL
  end.

Definition at_eol (s : text) : bool :=
  match s with
  | [] => true
  | c :: _ => c =? NL
  end.

Fixpoint run (r : regex) (prev : option char) (s : text) (cs : captures)
         (k : cont) : option R :=
  match r with
  | Lit c =>
      match s with
      | x :: s' => if x =? c then k (Some x) s' cs else None
      | [] => None
      end
  | Bol => if at_bol prev then k prev s cs else None
  | Eol => if at_eol s then k prev s cs else None
  | Star p => star p prev s (fun prev' s' => k prev' s' cs)
  | Plus p =>
      match s with
      | x :: s' =>
          if p x then star p (Some x) s' (fun prev' s' => k prev' s' cs)
          else None
      | [] => None
      end
  | Times n p => times n p prev s (fun prev' s' => k prev' s' cs)
  | Cat r1 r2 =>
      run r1 prev s cs (fun prev' s' cs' => run r2 prev' s' cs' k)
  | Group i r1 =>
      run r1 prev s cs
        (fun prev' s' cs' =>
           k prev' s'
             ((i, firstn (length s - length s') s) :: cs'))
  end.
End Matcher.

(** A match object: the text before the match, the groups, the text after. *)
Record rmatch : Type := RMatch {
  m_pre : text;
  m_groups : captures;
  m_post : text
}.

(** The pattern matched at one position: the groups and the rest. *)
Definition match_here (r : regex) (prev : option char) (s : text)
  : option (captures * text) :=
  run r prev s [] (fun _ s' cs => Some (cs, s')).

(** [Pattern.search]: the first position, from the left, where the pattern
    matches.  [before] is the text already passed, in reverse. *)
Fixpoint search_from (r : regex) (before : text) (s : text) : option rmatch :=
  match match_here r (hd_error before) s with
  | Some (cs, rest) => Some (RMatch (rev before) cs rest)
  | None =>
      match s with
      | [] => None
      | c :: s' => search_from r (c :: before) s'
      end
  end.

Definition search (r : regex) (s : text) : option rmatch :=
  search_from r [] s.

(** [Pattern.subn(rf"\1{repl}\2", s, count=1)] for a replacement text that
    the template reads literally (see [HexColorString]): the first match is
    replaced by group 1, the replacement, group 2. *)
Definition subn1 (r : regex) (repl : text) (s : text) : text * nat :=
  match search r s with
  | Some m =>
      (m_pre m ++ group 1 (m_groups m) ++ repl ++ group 2 (m_groups m)
         ++ m_post m, 1%nat)
  | None => (s, 0%nat)
  end.

(** ** The three patterns *)

(** [themePrimaryColorValue\s*=\s*0xFF([0-9A-Fa-f]{6})] *)
Definition pattern_theme : regex :=
  lit (str "themePrimaryColorValue")
    (Cat (Star is_space)
       (Cat (Lit 61)
          (Cat (Star is_space)
             (lit (str "0xFF") (Group 1 (Times 6 is_hex)))))).

(** [\s*color:\s*\x22]; [\x22] stands for the double quote of the source
    patterns. *)
Definition color_open : regex :=
  Cat (Star is_space)
    (lit (str "color:") (Cat (Star is_space) (Lit QUOTE))).

(** [(\x22\s*$)] *)
Definition group_close : regex :=
  Group 2 (Cat (Lit QUOTE) (Cat (Star is_space) Eol)).

(** [(^\s*color:\s*\x22)[#0-9A-Fa-f]+(\x22\s*$)], re.MULTILINE *)
Definition pattern_root : regex :=
  Cat (Group 1 (Cat Bol color_open))
    (Cat (Plus is_val) group_close).

(** [(^\s*android_12:\s*\n\s*color:\s*\x22)[#0-9A-Fa-f]+(\x22\s*$)],
    re.MULTILINE *)
Definition pattern_android12 : regex :=
  Cat (Group 1
         (Cat Bol
            (Cat (Star is_space)
               (lit (str "android_12:")
                  (Cat (Star is_space) (Cat (Lit NL) color_open))))))
    (Cat (Plus is_val) group_close).

(** ** The world of the script: two files and standard output *)

Inductive path : Type := APP_CONFIG | PUBSPEC.

Record world : Type := World {
  app_config : text;        (* lib/core/constants/app_config.dart *)
  pubspec : text;           (* pubspec.yaml *)
  stdout : list text        (* the lines printed so far *)
}.

Inductive outcome (A : Type) : Type :=
| Return (a : A)
| SystemExit (msg : text).
Arguments Return {A} a.
Arguments SystemExit {A} msg.

(** State and exit: a computation ends with a value or with [SystemExit],
    and in both cases leaves a world behind. *)
Definition M (A : Type) : Type := world -> outcome A * world.

Definition ret {A} (a : A) : M A := fun w => (Return a, w).

Definition bind {A B} (m : M A) (f : A -> M B) : M B :=
  fun w =>
    match m w with
    | (Return a, w') => f a w'
    | (SystemExit msg, w') => (SystemExit msg, w')
    end.

Definition raise_SystemExit {A} (msg : text) : M A :=
  fun w => (SystemExit msg, w).

Notation "x <- m ;; f" := (bind m (fun x => f))
  (at level 61, m at next level, right associativity).

Definition read_text (p : path) : M text :=
  fun w =>
    (Return match p with APP_CONFIG => app_config w | PUBSPEC => pubspec w end,
     w).

Definition write_text (p : path) (t : text) : M unit :=
  fun w =>
    (Return tt,
     match p with
     | APP_CONFIG => World t (pubspec w) (stdout w)
     | PUBSPEC => World (app_config w) t (stdout w)
     end).

Definition print (line : text) : M unit :=
  fun w => (Return tt, World (app_config w) (pubspec w) (stdout w ++ [line])).

(** ** The script *)

Definition msg_theme : text :=
  str "Could not find `themePrimaryColorValue = 0xFF......` in app_config.dart".

Definition msg_pubspec : text :=
  str "Could not update flutter_native_splash colors in pubspec.yaml. "
  ++ str "Expected `color` and `android_12 -> color` entries.".

Definition extract_theme_hex : M text :=
  text <- read_text APP_CONFIG ;;
  match search pattern_theme text with
  | None => raise_SystemExit msg_theme
  | Some m => ret (str "#" ++ upper (group 1 (m_groups m)))
  end.

Definition update_pubspec (hex_color : text) : M bool :=
  text <- read_text PUBSPEC ;;
  let '(new_text, count_root) := subn1 pattern_root hex_color text in
  let '(new_text, count_a12) := subn1 pattern_android12 hex_color new_text in
  if Nat.eqb count_root 0 || Nat.eqb count_a12 0 then
    raise_SystemExit msg_pubspec
  else if negb (text_eqb new_text text) then
    _ <- write_text PUBSPEC new_text ;;
    ret true
  else ret false.

Definition main : M unit :=
  hex_color <- extract_theme_hex ;;
  changed <- update_pubspec hex_color ;;
  let status := if changed then str "updated" else str "already in sync" in
  print (str "Splash color " ++ status ++ str ": " ++ hex_color).

(** The replacement texts that [main] passes to [update_pubspec]: a hash
    sign and six upper-case hexadecimal digits.  Such a text holds no
    backslash and starts with no digit, so the template
    [rf"\1{hex_color}\2"] reads it literally. *)
Definition is_upper_hex (c : char) : bool :=
  ((48 <=? c) && (c <=? 57)) || ((65 <=? c) && (c <=? 70)).

Definition HexColorString (h : text) : bool :=
  match h with
  | c :: d => (c =? 35) && Nat.eqb (length d) 6 && forallb is_upper_hex d
  | [] => false
  end.

(** * Notions used in the statements and in the proofs *)

(** The character before the position reached after consuming [w]. *)
Definition after (prev : option char) (w : text) : option char :=
  fold_left (fun _ c => Some c) w prev.

(** Every character of [w] is in the class [p]. *)
Definition all (p : char -> bool) (w : text) : Prop :=
  Forall (fun c => p c = true) w.

(** What a pattern consumes, declaratively: [den r prev w rest cs cs'] says
    that [r] can consume [w] when [prev] precedes it and [rest] follows it,
    turning the captured groups [cs] into [cs']. *)
Fixpoint den (r : regex) (prev : option char) (w rest : text)
         (cs cs' : captures) : Prop :=
  match r with
  | Lit c => w = [c] /\ cs' = cs
  | Bol => w = [] /\ at_bol prev = true /\ cs' = cs
  | Eol => w = [] /\ at_eol rest = true /\ cs' = cs
  | Star p => all p w /\ cs' = cs
  | Plus p => w <> [] /\ all p w /\ cs' = cs
  | Times n p => length w = n /\ all p w /\ cs' = cs
  | Cat r1 r2 =>
      exists w1 w2 cs1,
        w = w1 ++ w2 /\ den r1 prev w1 (w2 ++ rest) cs cs1
        /\ den r2 (after prev w1) w2 rest cs1 cs'
  | Group i r1 => exists cs1, den r1 prev w rest cs cs1 /\ cs' = (i, w) :: cs1
  end.

(** Two runs of the matcher agree: both fail, or both succeed with results
    related by [Q]. *)
Definition orel {R1 R2 : Type} (Q : R1 -> R2 -> Prop)
           (o1 : option R1) (o2 : option R2) : Prop :=
  match o1, o2 with
  | None, None => True
  | Some a, Some b => Q a b
  | _, _ => False
  end.

(** No item of the pattern accepts the double quote. *)
Fixpoint qfree (r : regex) : bool :=
  match r with
  | Lit c => negb (c =? QUOTE)
  | Bol | Eol => true
  | Star p | Plus p | Times _ p => negb (p QUOTE)
  | Cat r1 r2 => qfree r1 && qfree r2
  | Group _ _ => false
  end.

(** Items that refuse the double quote, then the double quote. *)
Fixpoint qlast (r : regex) : bool :=
  match r with
  | Lit c => c =? QUOTE
  | Cat r1 r2 => qfree r1 && qlast r2
  | _ => false
  end.

(** Both have the shape [(^G)[#0-9A-Fa-f]+(\x22\s*$)], where [G] ends with
    the opening double quote. *)
Definition field_pattern (G : regex) : regex :=
  Cat (Group 1 (Cat Bol G)) (Cat (Plus is_val) group_close).

(** [\s*android_12:\s*\n\s*color:\s*\x22], the part of the nested pattern
    between [^] and the value. *)
Definition android12_open : regex :=
  Cat (Star is_space)
    (lit (str "android_12:")
       (Cat (Star is_space) (Cat (Lit NL) color_open))).

(** A value the patterns accept: one or more of [#0-9A-Fa-f]. *)
Definition valstr (v : text) : Prop := v <> [] /\ all is_val v.

(** The matches of a field pattern at the start of
    [B0 ++ QUOTE :: v ++ QUOTE :: C] and of [B0 ++ QUOTE :: h ++ QUOTE :: C]:
    the same groups, and the match holds the replaced value or ends before
    the quote that opens it. *)
Definition Qm (C v h B0 : text) (r1 r2 : captures * text) : Prop :=
  fst r1 = fst r2
  /\ ((snd r1 = snd r2
       /\ group 1 (fst r1) = B0 ++ [QUOTE]
       /\ group 2 (fst r1) ++ snd r1 = QUOTE :: C)
      \/ (exists D,
             snd r1 = D ++ QUOTE :: v ++ QUOTE :: C
             /\ snd r2 = D ++ QUOTE :: h ++ QUOTE :: C)).

(** The text that a match stands for, with a given value between its two
    groups. *)
Definition set_value (m : rmatch) (x : text) : text :=
  m_pre m ++ group 1 (m_groups m) ++ x ++ group 2 (m_groups m) ++ m_post m.

(** The first matches in [F ++ QUOTE :: v ++ QUOTE :: C] and in
    [F ++ QUOTE :: h ++ QUOTE :: C]: the same groups, and the match holds
    the replaced value, or lies before it, or lies after it. *)
Definition Sm (C v h F : text) (m1 m2 : rmatch) : Prop :=
  m_groups m1 = m_groups m2
  /\ ((m_pre m1 = m_pre m2 /\ m_post m1 = m_post m2
       /\ m_pre m1 ++ group 1 (m_groups m1) = F ++ [QUOTE]
       /\ group 2 (m_groups m1) ++ m_post m1 = QUOTE :: C)
      \/ (m_pre m1 = m_pre m2
          /\ exists D,
              m_post m1 = D ++ QUOTE :: v ++ QUOTE :: C
              /\ m_post m2 = D ++ QUOTE :: h ++ QUOTE :: C)
      \/ (m_post m1 = m_post m2
          /\ exists D,
              m_pre m1 = F ++ QUOTE :: v ++ QUOTE :: D
              /\ m_pre m2 = F ++ QUOTE :: h ++ QUOTE :: D)).

(** Both fields of a manifest hold the colour [h]: the first match of each
    pattern has [h] as its value. *)
Definition synced (h t : text) : Prop :=
  exists mr ma,
    search pattern_root t = Some mr /\ t = set_value mr h
    /\ search pattern_android12 t = Some ma /\ t = set_value ma h.

(** A manifest whose [android_12] section comes before the root-level
    colour. *)
Definition manifest_nested_first (root_value : text) (nested_value : text)
  : text :=
  str "flutter_native_splash:" ++ [NL]
  ++ str "  android_12:" ++ [NL]
  ++ str "    color: " ++ [QUOTE] ++ nested_value ++ [QUOTE; NL]
  ++ str "  color: " ++ [QUOTE] ++ root_value ++ [QUOTE; NL].

(** A manifest with a root-level colour only. *)
Definition manifest_root_only : text :=
  str "flutter_native_splash:" ++ [NL]
  ++ str "  color: " ++ [QUOTE] ++ str "#000000" ++ [QUOTE; NL].

(** The manifest of the usual layout: the root-level colour, then the
    [android_12] section with its colour. *)
Definition manifest_standard (root_value nested_value : text) : text :=
  str "flutter_native_splash:" ++ [NL]
  ++ str "  color: " ++ [QUOTE] ++ root_value ++ [QUOTE; NL]
  ++ str "  android_12:" ++ [NL]
  ++ str "    color: " ++ [QUOTE] ++ nested_value ++ [QUOTE; NL].

(** A manifest without any colour field. *)
Definition manifest_no_color : text := str "flutter_native_splash:" ++ [NL].

(** The pattern reads [g1] and the opening quote in one way only. *)
Definition reads (G : regex) (prev : option char) (g1 : text) : Prop :=
  forall R (k : cont R) X cs,
    run G prev (g1 ++ QUOTE :: X) cs k = k (Some QUOTE) X cs.

(** After the closing quote, the line can end: white space, then the end of
    a line. *)
Definition closes (C : text) : Prop :=
  exists ws rest, C = ws ++ rest /\ all is_space ws /\ at_eol rest = true.

(** The pattern matches at no position inside [pre], when [before] (in
    reverse) precedes it and [s] follows it. *)
Fixpoint quiet (r : regex) (before pre s : text) : bool :=
  match pre with
  | [] => true
  | c :: pre' =>
      match match_here r (hd_error before) (pre ++ s) with
      | Some _ => false
      | None => quiet r (c :: before) pre' s
      end
  end.

(** [valstr], decided. *)
Definition valstrb (v : text) : bool :=
  match v with
  | [] => false
  | _ => forallb is_val v
  end.

(** The declaration of the theme colour with the digits [D], with white
    space [ws1] and [ws2] around the equals sign. *)
Definition declaration (ws1 ws2 D : text) : text :=
  str "themePrimaryColorValue" ++ ws1 ++ 61 :: ws2 ++ str "0xFF" ++ D.

(** The text holds a double quote; the number of its double quotes. *)
Definition has_quote (s : text) : bool := existsb (N.eqb QUOTE) s.

Definition quotes (s : text) : nat := count_occ N.eq_dec s QUOTE.

(** A manifest with a third colour line after the two fields. *)
Definition manifest_three_colors (root_value nested_value : text) : text :=
  manifest_standard root_value nested_value
  ++ str "  color: " ++ [QUOTE] ++ str "#333333" ++ [QUOTE; NL].

(** A colour line: indentation [i], the key, white space [s], the quoted
    value [v], and white space [e] after the closing quote. *)
Definition color_line (i s v e : text) : text :=
  i ++ str "color:" ++ s ++ QUOTE :: v ++ QUOTE :: e.

(** The [android_12] key with indentation [j] and white space [e1] after
    it, a line break, and a colour line. *)
Definition android12_lines (j e1 k s x e2 : text) : text :=
  j ++ str "android_12:" ++ e1 ++ NL :: color_line k s x e2.

(** The text is empty or ends with a line break: what follows it starts a
    line. *)
Definition ends_line (t : text) : bool := at_bol (hd_error (rev t)).

(** Every text of the list is white space. *)
Definition spaces (l : list text) : bool := forallb (forallb is_space) l.

(** The layout of a manifest that holds the root colour line and, after
    it, the [android_12] section: the lines before, the white space of the
    root colour line, the lines between, the white space of the key line and
    of the nested colour line, and the text after. *)
Record layout : Type := Layout {
  head_lines : text;
  root_indent : text;
  root_gap : text;
  root_end : text;
  mid_lines : text;
  key_indent : text;
  key_end : text;
  nested_indent : text;
  nested_gap : text;
  nested_end : text;
  tail_text : text
}.

Definition root_line (L : layout) (v : text) : text :=
  color_line (root_indent L) (root_gap L) v (root_end L).

Definition nested_lines (L : layout) (x : text) : text :=
  android12_lines (key_indent L) (key_end L) (nested_indent L) (nested_gap L)
    x (nested_end L).

(** The manifest of layout [L] with the root colour [v] and the nested
    colour [x]. *)
Definition manifest_of (L : layout) (v x : text) : text :=
  head_lines L ++ root_line L v ++ NL :: mid_lines L
  ++ nested_lines L x ++ tail_text L.

(** The parts of the layout are what their names say: white space around
    the keys and after the values, whole lines before and between the two
    fields, and the end of a line after the nested colour line. *)
Definition well_formed (L : layout) : bool :=
  spaces [root_indent L; root_gap L; root_end L; key_indent L; key_end L;
          nested_indent L; nested_gap L; nested_end L]
  && ends_line (head_lines L) && ends_line (mid_lines L)
  && at_eol (tail_text L).

(** The two fields are the first occurrences: the root pattern matches at
    no position before the root colour line, and the nested pattern at no
    position before the [android_12] key line. *)
Definition first_fields (L : layout) (v x : text) : bool :=
  quiet pattern_root [] (head_lines L)
    (root_line L v ++ NL :: mid_lines L ++ nested_lines L x ++ tail_text L)
  && quiet pattern_android12 []
       (head_lines L ++ root_line L v ++ NL :: mid_lines L)
       (nested_lines L x ++ tail_text L).

(** * Facts about the matcher *)

Lemma after_app prev w1 w2 : after prev (w1 ++ w2) = after (after prev w1) w2.
Proof. unfold after. apply fold_left_app. Qed.

Section MatcherFacts.
Variable R : Type.
Implicit Types (k : option char -> text -> option R) (p : char -> bool).

Lemma star_sound p : forall s prev k res,
    star p prev s k = Some res ->
    exists w rest,
      s = w ++ rest /\ all p w /\ k (after prev w) rest = Some res.
Proof.
  induction s as [|c s IH]; intros prev k res H; simpl in H.
  - exists [], []. repeat split; [constructor | exact H].
  - destruct (p c) eqn:Hc.
    + destruct (star p (Some c) s k) eqn:Hs.
      * inversion H; subst. apply IH in Hs.
        destruct Hs as (w & rest & -> & Hw & Hk).
        exists (c :: w), rest. repeat split; auto. constructor; auto.
      * exists [], (c :: s). repeat split; [constructor | exact H].
    + exists [], (c :: s). repeat split; [constructor | exact H].
Qed.

Lemma times_sound p : forall n s prev k res,
    times n p prev s k = Some res ->
    exists w rest,
      s = w ++ rest /\ length w = n /\ all p w
      /\ k (after prev w) rest = Some res.
Proof.
  induction n as [|n IH]; intros s prev k res H; simpl in H.
  - exists [], s. repeat split; [constructor | exact H].
  - destruct s as [|c s]; [discriminate|].
    destruct (p c) eqn:Hc; [|discriminate].
    apply IH in H. destruct H as (w & rest & -> & Hl & Hw & Hk).
    exists (c :: w), rest. repeat split; simpl; auto. constructor; auto.
Qed.

(** Repetition followed by something that refuses the repeated class takes
    all it can. *)
Lemma star_skip p k :
  (forall prev c s, p c = true -> k prev (c :: s) = None) ->
  forall w rest prev,
    all p w ->
    star p prev (w ++ rest) k = star p (after prev w) rest k.
Proof.
  intros Hk w rest. induction w as [|c w IH]; intros prev Hw; [reflexivity|].
  inversion Hw; subst. simpl. rewrite H1, IH by assumption.
  rewrite Hk by assumption. destruct (star _ _ _ _); reflexivity.
Qed.

Lemma star_stop p k c s prev :
  p c = false -> star p prev (c :: s) k = k prev (c :: s).
Proof. intros H. simpl. now rewrite H. Qed.

Lemma times_exact p k : forall w rest prev,
    all p w ->
    times (length w) p prev (w ++ rest) k = k (after prev w) rest.
Proof.
  induction w as [|c w IH]; intros rest prev Hw; [reflexivity|].
  inversion Hw; subst. simpl. rewrite H1. now apply IH.
Qed.

Lemma run_sound : forall r prev s cs (k : cont R) res,
    run r prev s cs k = Some res ->
    exists w rest cs',
      s = w ++ rest /\ den r prev w rest cs cs'
      /\ k (after prev w) rest cs' = Some res.
Proof.
  induction r as [c| | |p|p|n p|r1 IH1 r2 IH2|i r1 IH1];
    intros prev s cs k res H; simpl in H.
  - destruct s as [|x s]; [discriminate|].
    destruct (x =? c) eqn:Hx; [|discriminate].
    apply N.eqb_eq in Hx. subst x.
    exists [c], s, cs. simpl. auto.
  - destruct (at_bol prev) eqn:Hb; [|discriminate].
    exists [], s, cs. simpl. auto.
  - destruct (at_eol s) eqn:Hb; [|discriminate].
    exists [], s, cs. simpl. auto.
  - apply star_sound in H. destruct H as (w & rest & -> & Hw & Hk).
    exists w, rest, cs. simpl. auto.
  - destruct s as [|x s]; [discriminate|].
    destruct (p x) eqn:Hx; [|discriminate].
    apply star_sound in H. destruct H as (w & rest & -> & Hw & Hk).
    exists (x :: w), rest, cs. simpl. repeat split; auto.
    + discriminate.
    + constructor; auto.
  - apply times_sound in H. destruct H as (w & rest & -> & Hl & Hw & Hk).
    exists w, rest, cs. simpl. auto.
  - apply IH1 in H. destruct H as (w1 & rest1 & cs1 & -> & D1 & H).
    apply IH2 in H. destruct H as (w2 & rest & cs2 & -> & D2 & H).
    exists (w1 ++ w2), rest, cs2. rewrite app_assoc, after_app.
    repeat split; auto. simpl. exists w1, w2, cs1. auto.
  - apply IH1 in H. destruct H as (w & rest & cs1 & -> & D1 & H).
    rewrite length_app, Nat.add_sub, firstn_app, Nat.sub_diag, firstn_all in H.
    simpl in H. rewrite app_nil_r in H.
    exists w, rest, ((i, w) :: cs1). repeat split; auto.
    simpl. exists cs1. auto.
Qed.
End MatcherFacts.

(** ** Patterns cannot see past a double quote they do not name

    Two subjects [B ++ QUOTE :: X1] and [B ++ QUOTE :: X2] are read alike by
    a pattern in which no item accepts the double quote: it stays inside [B]
    and hands over, at the same place, to what follows it. *)

Section Quoted.
Variables (R1 R2 : Type) (Q : R1 -> R2 -> Prop) (X1 X2 : text).

Lemma at_eol_quoted (B : text) :
  at_eol (B ++ QUOTE :: X1) = at_eol (B ++ QUOTE :: X2).
Proof. destruct B; reflexivity. Qed.

Lemma star_quoted p :
  p QUOTE = false ->
  forall B prev k1 k2,
    (forall B1 B2 prev', B = B1 ++ B2 ->
       orel Q (k1 prev' (B2 ++ QUOTE :: X1)) (k2 prev' (B2 ++ QUOTE :: X2))) ->
    orel Q (star p prev (B ++ QUOTE :: X1) k1)
           (star p prev (B ++ QUOTE :: X2) k2).
Proof.
  intros Hq. induction B as [|c B IH]; intros prev k1 k2 Hk.
  - simpl. rewrite Hq. apply (Hk [] []). reflexivity.
  - simpl. destruct (p c).
    + specialize (IH (Some c) k1 k2).
      assert (Hin : orel Q (star p (Some c) (B ++ QUOTE :: X1) k1)
                           (star p (Some c) (B ++ QUOTE :: X2) k2)).
      { apply IH. intros B1 B2 prev' ->. apply (Hk (c :: B1) B2). reflexivity. }
      destruct (star p (Some c) (B ++ QUOTE :: X1) k1),
               (star p (Some c) (B ++ QUOTE :: X2) k2); simpl in Hin;
        try contradiction; auto.
      apply (Hk [] (c :: B)). reflexivity.
    + apply (Hk [] (c :: B)). reflexivity.
Qed.

Lemma times_quoted p :
  p QUOTE = false ->
  forall n B prev k1 k2,
    (forall B1 B2 prev', B = B1 ++ B2 ->
       orel Q (k1 prev' (B2 ++ QUOTE :: X1)) (k2 prev' (B2 ++ QUOTE :: X2))) ->
    orel Q (times n p prev (B ++ QUOTE :: X1) k1)
           (times n p prev (B ++ QUOTE :: X2) k2).
Proof.
  intros Hq. induction n as [|n IH]; intros B prev k1 k2 Hk.
  - simpl. apply (Hk [] B). reflexivity.
  - destruct B as [|c B]; simpl.
    + rewrite Hq. exact I.
    + destruct (p c); [|exact I].
      apply IH. intros B1 B2 prev' ->. apply (Hk (c :: B1) B2). reflexivity.
Qed.

Lemma run_quoted : forall r,
    qfree r = true ->
    forall B prev cs (k1 : cont R1) (k2 : cont R2),
      (forall B1 B2 prev', B = B1 ++ B2 ->
         orel Q (k1 prev' (B2 ++ QUOTE :: X1) cs)
                (k2 prev' (B2 ++ QUOTE :: X2) cs)) ->
      orel Q (run r prev (B ++ QUOTE :: X1) cs k1)
             (run r prev (B ++ QUOTE :: X2) cs k2).
Proof.
  induction r as [c| | |p|p|n p|r1 IH1 r2 IH2|i r1 IH1];
    intros Hr B prev cs k1 k2 Hk; simpl in Hr.
  - apply negb_true_iff in Hr. rewrite N.eqb_sym in Hr.
    destruct B as [|x B]; cbn [run app].
    + rewrite Hr. exact I.
    + destruct (x =? c); [|exact I]. apply (Hk [x] B). reflexivity.
  - simpl. destruct (at_bol prev); [|exact I]. apply (Hk [] B). reflexivity.
  - simpl. rewrite (at_eol_quoted B).
    destruct (at_eol _); [|exact I]. apply (Hk [] B). reflexivity.
  - apply negb_true_iff in Hr. simpl. apply star_quoted; auto.
  - apply negb_true_iff in Hr. destruct B as [|x B]; simpl.
    + rewrite Hr. exact I.
    + destruct (p x); [|exact I]. apply star_quoted; auto.
      intros B1 B2 prev' ->. apply (Hk (x :: B1) B2). reflexivity.
  - apply negb_true_iff in Hr. simpl. apply times_quoted; auto.
  - apply andb_true_iff in Hr. destruct Hr as [Hr1 Hr2]. simpl.
    apply IH1; auto. intros B1 B2 prev' ->. apply IH2; auto.
    intros B3 B4 prev'' ->. apply (Hk (B1 ++ B3) B4). now rewrite app_assoc.
  - discriminate.
Qed.

Lemma run_qlast : forall r,
    qlast r = true ->
    forall B prev cs (k1 : cont R1) (k2 : cont R2),
      (forall B1 B2, B = B1 ++ QUOTE :: B2 ->
         orel Q (k1 (Some QUOTE) (B2 ++ QUOTE :: X1) cs)
                (k2 (Some QUOTE) (B2 ++ QUOTE :: X2) cs)) ->
      orel Q (k1 (Some QUOTE) X1 cs) (k2 (Some QUOTE) X2 cs) ->
      orel Q (run r prev (B ++ QUOTE :: X1) cs k1)
             (run r prev (B ++ QUOTE :: X2) cs k2).
Proof.
  induction r as [c| | |p|p|n p|r1 IH1 r2 IH2|i r1 IH1];
    intros Hr B prev cs k1 k2 Hin Hend; simpl in Hr; try discriminate.
  - apply N.eqb_eq in Hr. subst c. destruct B as [|x B]; simpl.
    + exact Hend.
    + destruct (x =? QUOTE) eqn:Hx; [|exact I].
      apply N.eqb_eq in Hx. subst x. apply (Hin [] B). reflexivity.
  - apply andb_true_iff in Hr. destruct Hr as [Hr1 Hr2]. simpl.
    apply run_quoted; auto. intros B1 B2 prev' ->. apply IH2; auto.
    intros B3 B4 ->. apply (Hin (B1 ++ B3) B4). now rewrite <- app_assoc.
Qed.
End Quoted.

(** ** The two manifest patterns *)

Lemma pattern_root_field : pattern_root = field_pattern color_open.
Proof. reflexivity. Qed.

Lemma pattern_android12_field :
  pattern_android12 = field_pattern android12_open.
Proof. reflexivity. Qed.

Lemma color_open_qlast : qlast color_open = true.
Proof. reflexivity. Qed.

Lemma android12_open_qlast : qlast android12_open = true.
Proof. reflexivity. Qed.

Ltac bool_lia :=
  unfold is_val, is_hex, is_space, is_upper_hex, upper_char, NL, QUOTE in *;
  rewrite ?orb_true_iff, ?andb_true_iff, ?orb_false_iff, ?andb_false_iff,
    ?N.eqb_eq, ?N.leb_le, ?N.eqb_neq, ?N.leb_gt in *;
  lia.

Lemma is_val_not_quote c : is_val c = true -> (c =? QUOTE) = false.
Proof. intros H. bool_lia. Qed.

Lemma is_val_not_space c : is_val c = true -> is_space c = false.
Proof. intros H. bool_lia. Qed.

Lemma is_val_not_nl c : is_val c = true -> (c =? NL) = false.
Proof. intros H. bool_lia. Qed.

Ltac app_eq :=
  repeat (progress (simpl; rewrite <- ?app_assoc)); reflexivity.

Lemma firstn_consumed (a b : text) :
  firstn (length (a ++ b) - length b) (a ++ b) = a.
Proof.
  rewrite length_app, Nat.add_sub, firstn_app, Nat.sub_diag, firstn_all.
  simpl. apply app_nil_r.
Qed.

(** After the opening quote, the value and the closing quote are read in
    one way only. *)
Lemma run_value R (K : cont R) x C prev cs :
  valstr x ->
  run (Cat (Plus is_val) group_close) prev (x ++ QUOTE :: C) cs K
  = run (Cat (Star is_space) Eol) (Some QUOTE) C cs
      (fun p' s' cs' =>
         K p' s'
           ((2%nat, firstn (length (QUOTE :: C) - length s') (QUOTE :: C))
              :: cs')).
Proof.
  intros [Hne Hx]. destruct x as [|c x]; [congruence|].
  inversion Hx; subst. cbn [run app]. rewrite H1.
  rewrite star_skip; auto.
  intros prev' c' s' Hc'. cbn [run group_close].
  now rewrite is_val_not_quote by assumption.
Qed.

Lemma run_cat R r1 r2 prev s cs (k : cont R) :
  run (Cat r1 r2) prev s cs k
  = run r1 prev s cs (fun prev' s' cs' => run r2 prev' s' cs' k).
Proof. reflexivity. Qed.

Lemma run_group R i r prev s cs (k : cont R) :
  run (Group i r) prev s cs k
  = run r prev s cs
      (fun prev' s' cs' =>
         k prev' s' ((i, firstn (length s - length s') s) :: cs')).
Proof. reflexivity. Qed.

Lemma run_bol R prev s cs (k : cont R) :
  run Bol prev s cs k = if at_bol prev then k prev s cs else None.
Proof. reflexivity. Qed.

(** ** Replacing a quoted value: what a field pattern sees

    The subject is [B0 ++ QUOTE :: x ++ QUOTE :: C], read from its start,
    for two values [x := v] and [x := h].  The pattern matches for both or
    for neither, with the same groups; the match either takes [x] as its
    value, or ends before the quote that opens [x]. *)
Section ReplaceValue.
Variables (C v h : text).
Hypotheses (Hv : valstr v) (Hh : valstr h).

Lemma close_at_value R (K : cont R) x cs :
  valstr x ->
  run (Cat (Star is_space) Eol) (Some QUOTE) (x ++ QUOTE :: C) cs K = None.
Proof.
  intros [Hne Hx]. destruct x as [|c x]; [congruence|].
  inversion Hx; subst. cbn [run app].
  rewrite star_stop by now apply is_val_not_space.
  cbn [at_eol]. now rewrite is_val_not_nl.
Qed.

Lemma match_here_quoted G :
  qlast G = true ->
  forall B0 prev,
    orel (Qm C v h B0)
      (match_here (field_pattern G) prev (B0 ++ QUOTE :: v ++ QUOTE :: C))
      (match_here (field_pattern G) prev (B0 ++ QUOTE :: h ++ QUOTE :: C)).
Proof.
  intros HG B0 prev. unfold match_here, field_pattern.
  rewrite !run_cat, !run_group, !run_cat, !run_bol.
  destruct (at_bol prev); [|exact I].
  apply run_qlast; auto.
  - intros B1 B2 ->.
    replace ((B1 ++ QUOTE :: B2) ++ QUOTE :: v ++ QUOTE :: C)
      with ((B1 ++ [QUOTE]) ++ (B2 ++ QUOTE :: v ++ QUOTE :: C))
      by app_eq.
    replace ((B1 ++ QUOTE :: B2) ++ QUOTE :: h ++ QUOTE :: C)
      with ((B1 ++ [QUOTE]) ++ (B2 ++ QUOTE :: h ++ QUOTE :: C))
      by app_eq.
    rewrite !firstn_consumed. cbv beta. rewrite !run_cat.
    apply (@run_quoted _ _ _ _ _ (Plus is_val) eq_refl).
    intros B3 B4 prev' ->. unfold group_close.
    rewrite !run_group, !run_cat.
    apply (@run_qlast _ _ _ _ _ (Lit QUOTE) eq_refl).
    + intros B5 B6 ->.
      apply (@run_quoted _ _ _ _ _ (Cat (Star is_space) Eol) eq_refl).
      intros B7 B8 prev'' ->. simpl orel. split; simpl fst; simpl snd.
      * replace ((B5 ++ QUOTE :: B7 ++ B8) ++ QUOTE :: v ++ QUOTE :: C)
          with ((B5 ++ QUOTE :: B7) ++ (B8 ++ QUOTE :: v ++ QUOTE :: C))
          by app_eq.
        replace ((B5 ++ QUOTE :: B7 ++ B8) ++ QUOTE :: h ++ QUOTE :: C)
          with ((B5 ++ QUOTE :: B7) ++ (B8 ++ QUOTE :: h ++ QUOTE :: C))
          by app_eq.
        now rewrite !firstn_consumed.
      * right. exists B8. auto.
    + rewrite !close_at_value by assumption. exact I.
  - replace (B0 ++ QUOTE :: v ++ QUOTE :: C)
      with ((B0 ++ [QUOTE]) ++ (v ++ QUOTE :: C))
      by app_eq.
    replace (B0 ++ QUOTE :: h ++ QUOTE :: C)
      with ((B0 ++ [QUOTE]) ++ (h ++ QUOTE :: C))
      by app_eq.
    rewrite !firstn_consumed. cbv beta. rewrite !run_value by assumption.
    match goal with |- orel _ ?o ?o => destruct o as [[cs rest]|] eqn:E end;
      [|exact I].
    apply run_sound in E.
    destruct E as (w & rest' & cs' & HC & Hden & HK).
    rewrite HC in HK.
    change (QUOTE :: w ++ rest') with ((QUOTE :: w) ++ rest') in HK.
    rewrite firstn_consumed in HK.
    inversion HK; subst cs rest. clear HK. simpl in Hden.
    destruct Hden as (w1 & w2 & cs1 & _ & [_ ->] & _ & _ & ->).
    split; [reflexivity|]. left. repeat split. rewrite HC. reflexivity.
Qed.
End ReplaceValue.

(** ** Facts about [search] *)

Lemma match_here_not_bol G prev s :
  at_bol prev = false -> match_here (field_pattern G) prev s = None.
Proof.
  intros H. unfold match_here, field_pattern.
  rewrite !run_cat, !run_group, !run_cat, !run_bol. now rewrite H.
Qed.

(** The result of a search from some position: where it matched. *)
Lemma search_from_sound r : forall s before m,
    search_from r before s = Some m ->
    exists skipped s',
      s = skipped ++ s'
      /\ m_pre m = rev before ++ skipped
      /\ match_here r (hd_error (rev skipped ++ before)) s'
         = Some (m_groups m, m_post m).
Proof.
  induction s as [|c s IH]; intros before m H; simpl in H.
  - destruct (match_here r (hd_error before) []) as [[cs rest]|] eqn:E;
      [|discriminate].
    inversion H; subst. exists [], []. simpl. rewrite app_nil_r. auto.
  - destruct (match_here r (hd_error before) (c :: s)) as [[cs rest]|] eqn:E.
    + inversion H; subst. exists [], (c :: s). simpl. rewrite app_nil_r. auto.
    + apply IH in H. destruct H as (sk & s' & -> & Hpre & Hm).
      exists (c :: sk), s'. simpl in *. rewrite <- !app_assoc in *. auto.
Qed.

(** No match at any position that the search passed over. *)
Lemma search_from_first r : forall s before m,
    search_from r before s = Some m ->
    forall sk1 sk2 s',
      m_pre m = rev before ++ sk1 ++ sk2 -> sk2 <> [] -> s = sk1 ++ s' ->
      match_here r (hd_error (rev sk1 ++ before)) s' = None.
Proof.
  induction s as [|c s IH]; intros before m H sk1 sk2 s' Hpre Hne Hs.
  - simpl in H.
    destruct (match_here r (hd_error before) []) as [[cs rest]|] eqn:E;
      [|discriminate].
    inversion H; subst. simpl in Hpre.
    rewrite <- (app_nil_r (rev before)) in Hpre at 1.
    apply app_inv_head in Hpre. destruct sk1, sk2; simpl in *; congruence.
  - simpl in H.
    destruct (match_here r (hd_error before) (c :: s)) as [[cs rest]|] eqn:E.
    + inversion H; subst. simpl in Hpre.
      rewrite <- (app_nil_r (rev before)) in Hpre at 1.
      apply app_inv_head in Hpre. destruct sk1, sk2; simpl in *; congruence.
    + destruct sk1 as [|x sk1]; simpl in Hs.
      * subst s'. exact E.
      * inversion Hs; subst x s. simpl.
        rewrite <- app_assoc. simpl.
        apply (IH (c :: before) m H sk1 sk2 s'); auto.
        simpl. rewrite <- app_assoc. exact Hpre.
Qed.

(** A match somewhere makes the search succeed. *)
Lemma search_from_complete r : forall sk before s' res,
    match_here r (hd_error (rev sk ++ before)) s' = Some res ->
    exists m, search_from r before (sk ++ s') = Some m.
Proof.
  induction sk as [|c sk IH]; intros before s' res H.
  - simpl in *. destruct s'; simpl; rewrite H; destruct res; eauto.
  - simpl in *. rewrite <- app_assoc in H. simpl in H.
    destruct (match_here r (hd_error before) (c :: sk ++ s')) as [[cs rest]|];
      eauto.
Qed.

(** The search depends on the text before it through the last character
    only. *)
Lemma search_from_shift r : forall s b1 b2,
    hd_error b1 = hd_error b2 ->
    match search_from r b1 s with
    | None => search_from r b2 s = None
    | Some m =>
        exists D,
          m_pre m = rev b1 ++ D
          /\ search_from r b2 s
             = Some (RMatch (rev b2 ++ D) (m_groups m) (m_post m))
    end.
Proof.
  induction s as [|c s IH]; intros b1 b2 Hb; simpl; rewrite <- Hb.
  - destruct (match_here r (hd_error b1) []) as [[cs rest]|]; auto.
    exists []. simpl. now rewrite !app_nil_r.
  - destruct (match_here r (hd_error b1) (c :: s)) as [[cs rest]|].
    + exists []. simpl. now rewrite !app_nil_r.
    + specialize (IH (c :: b1) (c :: b2) eq_refl).
      destruct (search_from r (c :: b1) s) as [m|]; auto.
      destruct IH as (D & Hpre & Hs). exists (c :: D).
      simpl in *. rewrite <- !app_assoc in *. auto.
Qed.

(** Positions inside a line are passed over by a pattern that starts
    with [^]. *)
Lemma search_from_skip G : forall w before rest,
    at_bol (hd_error before) = false ->
    Forall (fun c => (c =? NL) = false) w ->
    search_from (field_pattern G) before (w ++ rest)
    = search_from (field_pattern G) (rev w ++ before) rest.
Proof.
  induction w as [|c w IH]; intros before rest Hb Hw; [reflexivity|].
  inversion Hw; subst. simpl. rewrite match_here_not_bol by assumption.
  rewrite IH by assumption. now rewrite <- app_assoc.
Qed.

Section ReplaceValueSearch.
Variables (C v h : text).
Hypotheses (Hv : valstr v) (Hh : valstr h).
Variable G : regex.
Hypothesis HG : qlast G = true.

Lemma valstr_no_nl x :
  valstr x -> Forall (fun c => (c =? NL) = false) (x ++ [QUOTE]).
Proof.
  intros [_ Hx]. apply Forall_app. split.
  - eapply Forall_impl; [|exact Hx]. intros c. apply is_val_not_nl.
  - constructor; [reflexivity|constructor].
Qed.

Lemma search_from_quoted : forall A0 before,
    orel (Sm C v h (rev before ++ A0))
      (search_from (field_pattern G) before (A0 ++ QUOTE :: v ++ QUOTE :: C))
      (search_from (field_pattern G) before (A0 ++ QUOTE :: h ++ QUOTE :: C)).
Proof.
  induction A0 as [|c A0 IH]; intros before.
  - pose proof (@match_here_quoted C v h Hv Hh G HG [] (hd_error before)) as HQ.
    simpl app in *. simpl search_from.
    destruct (match_here (field_pattern G) (hd_error before)
                (QUOTE :: v ++ QUOTE :: C)) as [[cs1 r1]|],
             (match_here (field_pattern G) (hd_error before)
                (QUOTE :: h ++ QUOTE :: C)) as [[cs2 r2]|];
      simpl in HQ; try contradiction.
    + destruct HQ as [Hcs HQ]. simpl in *. subst cs2. split; [reflexivity|].
      simpl. destruct HQ as [(-> & Hg1 & Hg2)|(D & -> & ->)].
      * left. rewrite Hg1, app_nil_r. auto.
      * right. left. eauto.
    + replace (v ++ QUOTE :: C) with ((v ++ [QUOTE]) ++ C) by app_eq.
      replace (h ++ QUOTE :: C) with ((h ++ [QUOTE]) ++ C) by app_eq.
      rewrite !search_from_skip by (try reflexivity; now apply valstr_no_nl).
      match goal with
      | |- orel _ (search_from _ ?b1 C) (search_from _ ?b2 C) =>
          pose proof (search_from_shift (field_pattern G) C b1 b2) as HS;
          destruct (search_from (field_pattern G) b1 C) as [m|]
      end.
      * destruct HS as (D & Hpre & ->).
        { rewrite !rev_app_distr. reflexivity. }
        simpl. split; [reflexivity|].
        right. right. simpl. split; [reflexivity|]. exists D.
        rewrite Hpre. rewrite !rev_app_distr. simpl.
        rewrite !rev_involutive, !app_nil_r. split; app_eq.
      * rewrite HS; [exact I|]. rewrite !rev_app_distr. reflexivity.
  - pose proof (@match_here_quoted C v h Hv Hh G HG (c :: A0) (hd_error before))
      as HQ.
    simpl app in *. simpl search_from.
    destruct (match_here (field_pattern G) (hd_error before)
                (c :: A0 ++ QUOTE :: v ++ QUOTE :: C)) as [[cs1 r1]|],
             (match_here (field_pattern G) (hd_error before)
                (c :: A0 ++ QUOTE :: h ++ QUOTE :: C)) as [[cs2 r2]|];
      simpl in HQ; try contradiction.
    + destruct HQ as [Hcs HQ]. simpl in *. subst cs2. split; [reflexivity|].
      simpl. destruct HQ as [(-> & Hg1 & Hg2)|(D & -> & ->)].
      * left. rewrite Hg1. repeat split; auto. app_eq.
      * right. left. eauto.
    + specialize (IH (c :: before)). simpl in IH.
      rewrite <- app_assoc in IH. exact IH.
Qed.

Lemma search_quoted A0 :
  orel (Sm C v h A0)
    (search (field_pattern G) (A0 ++ QUOTE :: v ++ QUOTE :: C))
    (search (field_pattern G) (A0 ++ QUOTE :: h ++ QUOTE :: C)).
Proof. apply (search_from_quoted A0 []). Qed.
End ReplaceValueSearch.

(** ** The shape of a match of a field pattern *)

Lemma den_qfree : forall r prev w rest cs cs',
    qfree r = true -> den r prev w rest cs cs' -> cs' = cs.
Proof.
  induction r as [c| | |p|p|n p|r1 IH1 r2 IH2|i r1 IH1];
    intros prev w rest cs cs' Hr H; simpl in *; try tauto; try discriminate.
  apply andb_true_iff in Hr. destruct Hr as [Hr1 Hr2].
  destruct H as (w1 & w2 & cs1 & _ & H1 & H2).
  apply IH1 in H1; auto. apply IH2 in H2; auto. congruence.
Qed.

Lemma den_qlast : forall r prev w rest cs cs',
    qlast r = true -> den r prev w rest cs cs' ->
    cs' = cs /\ exists w', w = w' ++ [QUOTE].
Proof.
  induction r as [c| | |p|p|n p|r1 IH1 r2 IH2|i r1 IH1];
    intros prev w rest cs cs' Hr H; simpl in *; try discriminate.
  - apply N.eqb_eq in Hr. subst c. destruct H as [-> ->].
    split; [reflexivity|]. now exists [].
  - apply andb_true_iff in Hr. destruct Hr as [Hr1 Hr2].
    destruct H as (w1 & w2 & cs1 & -> & H1 & H2).
    apply den_qfree in H1; auto. apply IH2 in H2; auto.
    destruct H2 as [-> (w' & ->)]. split; [assumption|].
    exists (w1 ++ w'). now rewrite app_assoc.
Qed.

Lemma match_here_split G prev s cs rest :
  qlast G = true ->
  match_here (field_pattern G) prev s = Some (cs, rest) ->
  exists g1 val ws,
    cs = [(2%nat, QUOTE :: ws); (1%nat, g1 ++ [QUOTE])]
    /\ s = (g1 ++ [QUOTE]) ++ val ++ (QUOTE :: ws) ++ rest
    /\ valstr val /\ all is_space ws
    /\ at_bol prev = true /\ at_eol rest = true.
Proof.
  intros HG H. unfold match_here in H. apply run_sound in H.
  destruct H as (w & rest' & cs' & -> & Hden & HK).
  inversion HK; subst cs' rest'. clear HK. simpl in Hden.
  destruct Hden as (w1 & w2 & cs1 & -> & (cs2 & (a & b & cs3 & -> & (-> & Hbol & ->) & HGd) & ->)
                    & (val & w3 & cs4 & -> & (Hne & Hval & ->)
                       & (cs5 & (q & w4 & cs6 & -> & (-> & ->)
                                 & (ws & e & cs7 & -> & (Hws & ->) & (-> & Heol & ->)))
                          & ->))).
  simpl in HGd. apply den_qlast in HGd; auto.
  destruct HGd as [-> (g1 & ->)].
  exists g1, val, ws. rewrite !app_nil_r in *. simpl in *.
  repeat split; auto. app_eq.
Qed.

Lemma search_split G t m :
  qlast G = true ->
  search (field_pattern G) t = Some m ->
  exists g1 val ws,
    m_groups m = [(2%nat, QUOTE :: ws); (1%nat, g1 ++ [QUOTE])]
    /\ t = set_value m val /\ valstr val /\ all is_space ws.
Proof.
  intros HG H. apply search_from_sound in H.
  destruct H as (sk & s' & -> & Hpre & Hm).
  apply match_here_split in Hm; auto.
  destruct Hm as (g1 & val & ws & Hcs & -> & Hval & Hws & _).
  exists g1, val, ws. unfold set_value. rewrite Hcs, Hpre. simpl.
  split; [reflexivity|]. split; [app_eq|]. split; assumption.
Qed.

(** ** Replacing a quoted value: what [search] finds afterwards *)

Lemma search_replace_none G v h A0 C :
  qlast G = true -> valstr v -> valstr h ->
  search (field_pattern G) (A0 ++ QUOTE :: v ++ QUOTE :: C) = None ->
  search (field_pattern G) (A0 ++ QUOTE :: h ++ QUOTE :: C) = None.
Proof.
  intros HG Hv Hh H.
  pose proof (@search_quoted C v h Hv Hh G HG A0) as HS.
  rewrite H in HS.
  destruct (search (field_pattern G) (A0 ++ QUOTE :: h ++ QUOTE :: C));
    [contradiction|reflexivity].
Qed.

(** If the first match holds the replaced value, or already holds the new
    value, the first match afterwards holds the new value. *)
Lemma search_replace_value G v h A0 C m1 val1 :
  qlast G = true -> valstr v -> valstr h ->
  search (field_pattern G) (A0 ++ QUOTE :: v ++ QUOTE :: C) = Some m1 ->
  A0 ++ QUOTE :: v ++ QUOTE :: C = set_value m1 val1 ->
  val1 = h \/ m_pre m1 ++ group 1 (m_groups m1) = A0 ++ [QUOTE] ->
  exists m2,
    search (field_pattern G) (A0 ++ QUOTE :: h ++ QUOTE :: C) = Some m2
    /\ A0 ++ QUOTE :: h ++ QUOTE :: C = set_value m2 h
    /\ m_groups m2 = m_groups m1.
Proof.
  intros HG Hv Hh H Hset Hor.
  pose proof (@search_quoted C v h Hv Hh G HG A0) as HS.
  rewrite H in HS.
  destruct (search (field_pattern G) (A0 ++ QUOTE :: h ++ QUOTE :: C))
    as [m2|]; [|contradiction].
  exists m2. split; [reflexivity|]. simpl in HS.
  destruct HS as [Hcs HS]. split; [|now symmetry].
  unfold set_value in *. rewrite <- Hcs.
  destruct HS as [(Hpre & Hpost & Hg1 & Hg2)|[(Hpre & D & Hp1 & Hp2)|(Hpost & D & Hp1 & Hp2)]].
  - rewrite <- Hpre, <- Hpost.
    transitivity ((m_pre m1 ++ group 1 (m_groups m1)) ++ h
                  ++ (group 2 (m_groups m1) ++ m_post m1));
      [rewrite Hg1, Hg2|]; app_eq.
  - rewrite <- Hpre, Hp2. rewrite Hp1 in Hset.
    assert (HA : A0 = m_pre m1 ++ group 1 (m_groups m1) ++ val1
                      ++ group 2 (m_groups m1) ++ D).
    { apply (app_inv_tail (QUOTE :: v ++ QUOTE :: C)).
      rewrite Hset. app_eq. }
    destruct Hor as [->|Hpos].
    + rewrite HA. app_eq.
    + exfalso. rewrite HA in Hpos. apply (f_equal (@length _)) in Hpos.
      rewrite !length_app in Hpos. simpl in Hpos. lia.
  - rewrite <- Hpost, Hp2. rewrite Hp1 in Hset.
    destruct Hor as [->|Hpos].
    + assert (HC : C = D ++ group 1 (m_groups m1) ++ h
                        ++ group 2 (m_groups m1) ++ m_post m1).
      { apply (app_inv_head (A0 ++ QUOTE :: v ++ [QUOTE])).
        rewrite <- !app_assoc. simpl. rewrite <- !app_assoc. simpl.
        rewrite Hset. app_eq. }
      rewrite HC. app_eq.
    + exfalso. rewrite Hp1 in Hpos. apply (f_equal (@length _)) in Hpos.
      rewrite !length_app in Hpos. simpl in Hpos.
      rewrite !length_app in Hpos. simpl in Hpos. lia.
Qed.

(** A first match that lies after the replaced value stays the first match,
    with the same groups and the same text after it. *)
Lemma search_replace_before G v h A0 C D cs post :
  qlast G = true -> valstr v -> valstr h ->
  search (field_pattern G) (A0 ++ QUOTE :: v ++ QUOTE :: C)
  = Some (RMatch (A0 ++ QUOTE :: v ++ QUOTE :: D) cs post) ->
  search (field_pattern G) (A0 ++ QUOTE :: h ++ QUOTE :: C)
  = Some (RMatch (A0 ++ QUOTE :: h ++ QUOTE :: D) cs post).
Proof.
  intros HG Hv Hh H.
  pose proof (@search_quoted C v h Hv Hh G HG A0) as HS.
  destruct (@search_split _ _ _ HG H) as (g1 & val & ws & Hcs & Ht & _).
  rewrite H in HS.
  destruct (search (field_pattern G) (A0 ++ QUOTE :: h ++ QUOTE :: C))
    as [m2|]; [|contradiction].
  simpl in HS. destruct HS as [Hg HS]. unfold set_value in Ht. simpl in Ht.
  destruct HS as [(_ & _ & Hpos & _)|[(_ & D' & Hp & _)|(Hpost & D' & Hp1 & Hp2)]].
  - exfalso. apply (f_equal (@length _)) in Hpos. unfold text, char in *.
    repeat (rewrite !length_app in Hpos; simpl in Hpos). lia.
  - exfalso. simpl in Hp. rewrite Hp in Ht.
    apply (f_equal (@length _)) in Ht. unfold text, char in *.
    repeat (rewrite !length_app in Ht; simpl in Ht). lia.
  - apply app_inv_head in Hp1. injection Hp1 as Hp1.
    apply app_inv_head in Hp1. injection Hp1 as <-.
    destruct m2 as [p2 c2 q2]. simpl in *. subst. reflexivity.
Qed.

(** * The script, step by step *)

Lemma hex_color_valstr h : HexColorString h = true -> valstr h.
Proof.
  destruct h as [|c d]; [discriminate|]. simpl. intros H.
  apply andb_true_iff in H. destruct H as [H Hd].
  apply andb_true_iff in H. destruct H as [Hc _].
  split; [discriminate|]. constructor.
  - bool_lia.
  - rewrite forallb_forall in Hd. apply Forall_forall. intros x Hx.
    specialize (Hd x Hx). bool_lia.
Qed.

Lemma text_eqb_eq a b : text_eqb a b = true <-> a = b.
Proof. unfold text_eqb. destruct (list_eq_dec N.eq_dec a b); split; congruence. Qed.

Lemma text_eqb_refl a : text_eqb a a = true.
Proof. now apply text_eqb_eq. Qed.

Lemma subn1_some r h t m :
  search r t = Some m -> subn1 r h t = (set_value m h, 1%nat).
Proof. intros H. unfold subn1. now rewrite H. Qed.

Lemma subn1_none r h t : search r t = None -> subn1 r h t = (t, 0%nat).
Proof. intros H. unfold subn1. now rewrite H. Qed.

(** [update_pubspec] in terms of the two searches. *)
Lemma update_pubspec_unfold h w :
  update_pubspec h w =
  match search pattern_root (pubspec w) with
  | None => (SystemExit msg_pubspec, w)
  | Some mr =>
      match search pattern_android12 (set_value mr h) with
      | None => (SystemExit msg_pubspec, w)
      | Some ma =>
          if text_eqb (set_value ma h) (pubspec w) then (Return false, w)
          else (Return true,
                World (app_config w) (set_value ma h) (stdout w))
      end
  end.
Proof.
  unfold update_pubspec, bind, read_text, raise_SystemExit, write_text, ret.
  destruct (search pattern_root (pubspec w)) as [mr|] eqn:Er.
  - rewrite (@subn1_some _ h _ _ Er).
    destruct (search pattern_android12 (set_value mr h)) as [ma|] eqn:Ea.
    + rewrite (@subn1_some _ h _ _ Ea). simpl.
      destruct (text_eqb (set_value ma h) (pubspec w)); reflexivity.
    + rewrite (@subn1_none _ h _ Ea). reflexivity.
  - rewrite (@subn1_none _ h _ Er).
    destruct (subn1 pattern_android12 h (pubspec w)). reflexivity.
Qed.

(** The text around the value of a match. *)
Lemma set_value_frame m g1 ws x :
  m_groups m = [(2%nat, QUOTE :: ws); (1%nat, g1 ++ [QUOTE])] ->
  set_value m x = (m_pre m ++ g1) ++ QUOTE :: x ++ QUOTE :: (ws ++ m_post m).
Proof. intros H. unfold set_value. rewrite H. simpl. app_eq. Qed.

(** Setting the value of the first match of one field pattern keeps, for any
    field pattern, a first match that held that value or the new one. *)
Lemma replace_keeps G G' t m h m1 val1 :
  qlast G = true -> qlast G' = true -> valstr h ->
  search (field_pattern G) t = Some m ->
  search (field_pattern G') t = Some m1 ->
  t = set_value m1 val1 ->
  val1 = h
  \/ m_pre m1 ++ group 1 (m_groups m1) = m_pre m ++ group 1 (m_groups m) ->
  exists m2,
    search (field_pattern G') (set_value m h) = Some m2
    /\ set_value m h = set_value m2 h
    /\ m_groups m2 = m_groups m1.
Proof.
  intros HG HG' Hh Hm Hm1 Hset Hor.
  destruct (@search_split _ _ _ HG Hm) as (g1 & val & ws & Hcs & Ht & Hval & _).
  rewrite (@set_value_frame _ _ _ val Hcs) in Ht.
  rewrite (@set_value_frame _ _ _ h Hcs).
  rewrite Ht in Hm1, Hset. clear Ht.
  apply (@search_replace_value G' val h (m_pre m ++ g1) (ws ++ m_post m)
           m1 val1); auto.
  destruct Hor as [->|Hpos]; [now left|right].
  rewrite Hpos, Hcs. simpl. app_eq.
Qed.

Lemma replace_none G G' t m h :
  qlast G = true -> qlast G' = true -> valstr h ->
  search (field_pattern G) t = Some m ->
  search (field_pattern G') t = None ->
  search (field_pattern G') (set_value m h) = None.
Proof.
  intros HG HG' Hh Hm Hn.
  destruct (@search_split _ _ _ HG Hm) as (g1 & val & ws & Hcs & Ht & Hval & _).
  rewrite (@set_value_frame _ _ _ val Hcs) in Ht.
  rewrite (@set_value_frame _ _ _ h Hcs).
  rewrite Ht in Hn. apply (@search_replace_none G' val h); auto.
Qed.

Lemma replace_none_inv G G' t m h :
  qlast G = true -> qlast G' = true -> valstr h ->
  search (field_pattern G) t = Some m ->
  search (field_pattern G') (set_value m h) = None ->
  search (field_pattern G') t = None.
Proof.
  intros HG HG' Hh Hm Hn.
  destruct (@search_split _ _ _ HG Hm) as (g1 & val & ws & Hcs & Ht & Hval & _).
  rewrite (@set_value_frame _ _ _ val Hcs) in Ht.
  rewrite (@set_value_frame _ _ _ h Hcs) in Hn.
  rewrite Ht. apply (@search_replace_none G' h val); auto.
Qed.

(** What a successful [update_pubspec] did. *)
Lemma update_pubspec_return h w c w' :
  update_pubspec h w = (Return c, w') ->
  exists mr v ma x,
    search pattern_root (pubspec w) = Some mr
    /\ pubspec w = set_value mr v /\ valstr v
    /\ search pattern_android12 (set_value mr h) = Some ma
    /\ set_value mr h = set_value ma x /\ valstr x
    /\ c = negb (text_eqb (set_value ma h) (pubspec w))
    /\ w' = (if c then World (app_config w) (set_value ma h) (stdout w)
             else w).
Proof.
  rewrite update_pubspec_unfold. intros H.
  destruct (search pattern_root (pubspec w)) as [mr|] eqn:Er; [|discriminate].
  destruct (search pattern_android12 (set_value mr h)) as [ma|] eqn:Ea;
    [|discriminate].
  destruct (@search_split color_open _ _ color_open_qlast Er)
    as (g1 & v & ws & _ & Hv & Hvs & _).
  destruct (@search_split android12_open _ _ android12_open_qlast Ea)
    as (k1 & x & ws' & _ & Hx & Hxs & _).
  exists mr, v, ma, x.
  destruct (text_eqb (set_value ma h) (pubspec w)); inversion H; subst;
    repeat (split; [solve [auto]|]); reflexivity.
Qed.

(** After both substitutions the first match of each pattern holds [h]. *)
Lemma patched_synced h t mr ma :
  valstr h ->
  search pattern_root t = Some mr ->
  search pattern_android12 (set_value mr h) = Some ma ->
  synced h (set_value ma h).
Proof.
  intros Hh Er Ea.
  destruct (@search_split color_open _ _ color_open_qlast Er)
    as (g1 & v & ws & _ & Hv & _).
  destruct (@search_split android12_open _ _ android12_open_qlast Ea)
    as (k1 & x & ws' & _ & Hx & _).
  destruct (@replace_keeps color_open color_open t mr h mr v
              color_open_qlast color_open_qlast Hh Er Er Hv
              (or_intror eq_refl)) as (mr1 & Er1 & Hr1 & _).
  destruct (@replace_keeps android12_open color_open (set_value mr h) ma h
              mr1 h android12_open_qlast color_open_qlast Hh Ea Er1 Hr1
              (or_introl eq_refl)) as (mr2 & Er2 & Hr2 & _).
  destruct (@replace_keeps android12_open android12_open (set_value mr h) ma
              h ma x android12_open_qlast android12_open_qlast Hh Ea Ea Hx
              (or_intror eq_refl)) as (ma2 & Ea2 & Ha2 & _).
  exists mr2, ma2. auto.
Qed.

Lemma update_pubspec_synced h w :
  synced h (pubspec w) -> update_pubspec h w = (Return false, w).
Proof.
  intros (mr & ma & Er & Hr & Ea & Ha).
  rewrite update_pubspec_unfold, Er, <- Hr, Ea, <- Ha, text_eqb_refl.
  reflexivity.
Qed.

(** What a successful [update_pubspec] leaves behind. *)
Lemma update_pubspec_return_synced h w c w' :
  valstr h ->
  update_pubspec h w = (Return c, w') ->
  synced h (pubspec w')
  /\ app_config w' = app_config w /\ stdout w' = stdout w
  /\ (c = true -> pubspec w' <> pubspec w)
  /\ (c = false -> w' = w).
Proof.
  intros Hh H.
  destruct (@update_pubspec_return _ _ _ _ H)
    as (mr & v & ma & x & Er & _ & _ & Ea & _ & _ & Hc & Hw).
  pose proof (@patched_synced _ _ _ _ Hh Er Ea) as Hs.
  destruct c; subst w'; simpl.
  - repeat split; auto; try discriminate. intros _ Heq.
    symmetry in Hc. apply negb_true_iff in Hc.
    apply text_eqb_eq in Heq. congruence.
  - symmetry in Hc. apply negb_false_iff, text_eqb_eq in Hc.
    rewrite Hc in Hs. repeat split; auto. discriminate.
Qed.

(** * The claims about [update_pubspec] *)

(** C2, as stated, fails: on a manifest whose [android_12] section precedes
    the root-level colour, [update_pubspec] succeeds and the root-level
    field, which is nested under no sub-section, keeps its old value
    [#222222]; the line that the root pattern rewrote is the nested one. *)
Lemma update_pubspec_root_pattern_takes_nested_line :
  update_pubspec (str "#2196F3")
    (World [] (manifest_nested_first (str "#222222") (str "#111111")) [])
  = (Return true,
     World [] (manifest_nested_first (str "#222222") (str "#2196F3")) []).
Proof. vm_compute. reflexivity. Qed.

(** C2, amended: after [update_pubspec] succeeds, the first line of the
    resulting manifest that matches the root pattern and the first
    [android_12] colour field both hold [hex_color] ([synced]); the root
    pattern takes the first matching line, nested or not. *)
Theorem update_pubspec_first_fields_hold_color h w c w' :
  HexColorString h = true ->
  update_pubspec h w = (Return c, w') ->
  synced h (pubspec w').
Proof.
  intros Hh H. apply hex_color_valstr in Hh.
  destruct (@update_pubspec_return _ _ _ _ H)
    as (mr & v & ma & x & Er & _ & _ & Ea & _ & _ & Hc & Hw).
  pose proof (@patched_synced _ _ _ _ Hh Er Ea) as Hs.
  destruct c; subst w'; simpl; auto.
  symmetry in Hc. apply negb_false_iff, text_eqb_eq in Hc. now rewrite <- Hc.
Qed.

Lemma update_pubspec_first_fields_hold_color_witness :
  synced (str "#2196F3")
    (manifest_nested_first (str "#222222") (str "#2196F3")).
Proof.
  apply (@update_pubspec_first_fields_hold_color (str "#2196F3")
           (World [] (manifest_nested_first (str "#222222") (str "#111111")) [])
           true
           (World [] (manifest_nested_first (str "#222222") (str "#2196F3")) [])).
  - reflexivity.
  - vm_compute. reflexivity.
Defined.

(** C4: when the root pattern or the nested pattern matches nowhere in the
    manifest, [update_pubspec] ends with [SystemExit] and leaves the world,
    and so the manifest file, as it was: nothing is written. *)
Theorem update_pubspec_missing_field_no_write h w :
  HexColorString h = true ->
  search pattern_root (pubspec w) = None
  \/ search pattern_android12 (pubspec w) = None ->
  update_pubspec h w = (SystemExit msg_pubspec, w).
Proof.
  intros Hh Hnone. apply hex_color_valstr in Hh.
  rewrite update_pubspec_unfold.
  destruct (search pattern_root (pubspec w)) as [mr|] eqn:Er; [|reflexivity].
  destruct Hnone as [Hr|Ha]; [discriminate|].
  pose proof (@replace_none color_open android12_open _ _ _
                color_open_qlast android12_open_qlast Hh Er Ha) as Hn.
  change (field_pattern android12_open) with pattern_android12 in Hn.
  now rewrite Hn.
Qed.

Lemma update_pubspec_missing_field_no_write_witness :
  update_pubspec (str "#2196F3") (World [] manifest_root_only [])
  = (SystemExit msg_pubspec, World [] manifest_root_only []).
Proof.
  apply update_pubspec_missing_field_no_write.
  - reflexivity.
  - right. vm_compute. reflexivity.
Defined.

(** C5: [update_pubspec] is idempotent and detects a manifest that is in
    sync: when both fields already hold the colour, the result is [false]
    and the world is unchanged; after any successful run a second run with
    the same colour returns [false] and leaves the same text; the file is
    written only when the text changes. *)
Theorem update_pubspec_idempotent h w :
  HexColorString h = true ->
  (synced h (pubspec w) -> update_pubspec h w = (Return false, w))
  /\ (forall c w',
         update_pubspec h w = (Return c, w') ->
         update_pubspec h w' = (Return false, w')
         /\ (c = false -> w' = w)
         /\ (c = true ->
             pubspec w' <> pubspec w
             /\ app_config w' = app_config w /\ stdout w' = stdout w)).
Proof.
  intros Hh. apply hex_color_valstr in Hh.
  split; [apply update_pubspec_synced|].
  intros c w' H.
  destruct (@update_pubspec_return _ _ _ _ H)
    as (mr & v & ma & x & Er & _ & _ & Ea & _ & _ & Hc & Hw).
  pose proof (@patched_synced _ _ _ _ Hh Er Ea) as Hs.
  destruct c; subst w'; simpl.
  - split; [now apply update_pubspec_synced|].
    split; [discriminate|]. intros _. repeat split. intros Heq.
    symmetry in Hc. apply negb_true_iff in Hc.
    apply text_eqb_eq in Heq. congruence.
  - symmetry in Hc. apply negb_false_iff, text_eqb_eq in Hc.
    rewrite Hc in Hs.
    split; [now apply update_pubspec_synced|].
    split; [reflexivity|discriminate].
Qed.

Lemma update_pubspec_idempotent_witness :
  update_pubspec (str "#2196F3")
    (World [] (manifest_standard (str "#2196F3") (str "#2196F3")) [])
  = (Return false,
     World [] (manifest_standard (str "#2196F3") (str "#2196F3")) []).
Proof.
  apply (proj2 (@update_pubspec_idempotent (str "#2196F3")
                  (World [] (manifest_standard (str "#000000") (str "#000000")) [])
                  eq_refl) true).
  vm_compute. reflexivity.
Defined.

(** C7, as stated, fails: the manifest without a root-level field and the
    manifest that lacks the nested field only end with the same
    [SystemExit] message, so the error does not tell which field is
    missing. *)
Lemma update_pubspec_same_error_for_both_fields :
  search pattern_root manifest_no_color = None
  /\ search pattern_root manifest_root_only <> None
  /\ search pattern_android12 manifest_root_only = None
  /\ fst (update_pubspec (str "#2196F3") (World [] manifest_no_color []))
     = fst (update_pubspec (str "#2196F3") (World [] manifest_root_only [])).
Proof. vm_compute. repeat split. discriminate. Qed.

(** C7, amended: when [update_pubspec] fails because a field pattern matched
    nowhere, the error is one fixed message that names both expected
    entries, whichever field is missing. *)
Theorem update_pubspec_single_error h w msg w' :
  HexColorString h = true ->
  update_pubspec h w = (SystemExit msg, w') ->
  msg = msg_pubspec /\ w' = w
  /\ (search pattern_root (pubspec w) = None
      \/ search pattern_android12 (pubspec w) = None).
Proof.
  intros Hh. apply hex_color_valstr in Hh.
  rewrite update_pubspec_unfold.
  destruct (search pattern_root (pubspec w)) as [mr|] eqn:Er.
  - destruct (search pattern_android12 (set_value mr h)) as [ma|] eqn:Ea.
    + destruct (text_eqb _ _); discriminate.
    + intros H. inversion H; subst. repeat split. right.
      apply (@replace_none_inv color_open android12_open _ mr h
               color_open_qlast android12_open_qlast Hh Er Ea).
  - intros H. inversion H; subst. auto.
Qed.

Lemma update_pubspec_single_error_witness :
  msg_pubspec = msg_pubspec
  /\ World [] manifest_root_only [] = World [] manifest_root_only []
  /\ (search pattern_root manifest_root_only = None
      \/ search pattern_android12 manifest_root_only = None).
Proof.
  apply (@update_pubspec_single_error (str "#2196F3")
           (World [] manifest_root_only []) msg_pubspec
           (World [] manifest_root_only [])).
  - reflexivity.
  - vm_compute. reflexivity.
Defined.

(** * Evaluating the patterns on texts of a known shape *)

Section Evaluate.
Variable R : Type.
Implicit Types (k : option char -> text -> option R).

Lemma star_complete p k : forall w rest prev r,
    all p w -> k (after prev w) rest = Some r ->
    exists r', star p prev (w ++ rest) k = Some r'.
Proof.
  induction w as [|c w IH]; intros rest prev r Hw Hk.
  - simpl in *. destruct rest as [|x rest]; simpl; [eauto|].
    destruct (p x); [|eauto].
    destruct (star p (Some x) rest k); eauto.
  - inversion Hw; subst. simpl. rewrite H1.
    destruct (IH rest (Some c) r H2 Hk) as (r' & ->). eauto.
Qed.

(** Repetition whose continuation, wherever it is tried, fails or gives the
    one result [V]. *)
Lemma star_none_or p k (V : option R) rest :
  (forall prev, star p prev rest k = k prev rest) ->
  forall w prev,
    (forall w1 w2, w = w1 ++ w2 ->
       k (after prev w1) (w2 ++ rest) = None
       \/ k (after prev w1) (w2 ++ rest) = V) ->
    star p prev (w ++ rest) k = None \/ star p prev (w ++ rest) k = V.
Proof.
  intros Hrest. induction w as [|c w IH]; intros prev H.
  - simpl. rewrite Hrest. apply (H [] []). reflexivity.
  - simpl. destruct (p c); [|apply (H [] (c :: w)); reflexivity].
    destruct (IH (Some c)) as [E|E].
    + intros w1 w2 ->. apply (H (c :: w1) w2). reflexivity.
    + rewrite E. apply (H [] (c :: w)). reflexivity.
    + rewrite E. destruct V; [now right|].
      apply (H [] (c :: w)). reflexivity.
Qed.

Lemma star_among p k (V : option R) rest :
  (forall prev, star p prev rest k = k prev rest) ->
  forall w prev,
    (forall w1 w2, w = w1 ++ w2 ->
       k (after prev w1) (w2 ++ rest) = None
       \/ k (after prev w1) (w2 ++ rest) = V) ->
    (exists w1 w2,
        w = w1 ++ w2 /\ all p w1 /\ k (after prev w1) (w2 ++ rest) = V) ->
    star p prev (w ++ rest) k = V.
Proof.
  intros Hrest. induction w as [|c w IH]; intros prev H (w1 & w2 & Hw & Hp & HV).
  - destruct w1; [|discriminate]. destruct w2; [|discriminate].
    simpl in *. now rewrite Hrest.
  - assert (Hin : forall w1 w2, w = w1 ++ w2 ->
                k (after (Some c) w1) (w2 ++ rest) = None
                \/ k (after (Some c) w1) (w2 ++ rest) = V).
    { intros u1 u2 ->. apply (H (c :: u1) u2). reflexivity. }
    destruct w1 as [|c' w1]; simpl in Hw.
    + subst w2. simpl in HV. simpl. destruct (p c); [|exact HV].
      destruct (@star_none_or p k V rest Hrest w (Some c) Hin) as [E|E];
        rewrite E; [exact HV|].
      destruct V; [reflexivity|exact HV].
    + injection Hw as Hc Hw. subst c' w.
      apply Forall_cons_iff in Hp. destruct Hp as [Hc Hp]. simpl. rewrite Hc.
      rewrite (IH (Some c) Hin) by (exists w1, w2; auto).
      destruct V; [reflexivity|].
      destruct (H [] (c :: w1 ++ w2) eq_refl) as [E|E]; exact E.
Qed.

Lemma run_lit (K : cont R) r : forall s X prev cs,
    s <> [] ->
    run (lit s r) prev (s ++ X) cs K = run r (after prev s) X cs K.
Proof.
  induction s as [|c s IH]; intros X prev cs Hs; [congruence|].
  simpl. rewrite N.eqb_refl. destruct s as [|c' s]; [reflexivity|].
  rewrite <- IH by discriminate. reflexivity.
Qed.

(** [\s*] before a character that is no white space. *)
Lemma run_spaces (K : cont R) c r ws X prev cs :
  all is_space ws -> is_space c = false ->
  run (Cat (Star is_space) (Cat (Lit c) r)) prev (ws ++ c :: X) cs K
  = run r (Some c) X cs K.
Proof.
  intros Hws Hc. rewrite run_cat. cbn [run].
  rewrite star_skip; auto.
  - rewrite star_stop by assumption. now rewrite N.eqb_refl.
  - intros prev' x s Hx. destruct (x =? c) eqn:E; [|reflexivity].
    apply N.eqb_eq in E. congruence.
Qed.
End Evaluate.

Lemma run_close_complete R (K : cont R) ws rest prev cs :
  all is_space ws -> at_eol rest = true ->
  (forall p s c, exists r, K p s c = Some r) ->
  exists r, run (Cat (Star is_space) Eol) prev (ws ++ rest) cs K = Some r.
Proof.
  intros Hws Heol HK. destruct (HK (after prev ws) rest cs) as [r Hr].
  rewrite run_cat. cbn [run].
  eapply star_complete; [eassumption|]. cbv beta. rewrite Heol. exact Hr.
Qed.

Lemma match_here_reads G prev g1 val C :
  reads G prev g1 -> at_bol prev = true -> valstr val -> closes C ->
  exists g2 post,
    match_here (field_pattern G) prev (g1 ++ QUOTE :: val ++ QUOTE :: C)
    = Some ([(2%nat, g2); (1%nat, g1 ++ [QUOTE])], post)
    /\ g2 ++ post = QUOTE :: C.
Proof.
  intros HG Hbol Hval (ws & rest & HC & Hws & Heol).
  unfold match_here, field_pattern.
  rewrite !run_cat, !run_group, !run_cat, !run_bol, Hbol, HG.
  replace (g1 ++ QUOTE :: val ++ QUOTE :: C)
    with ((g1 ++ [QUOTE]) ++ (val ++ QUOTE :: C)) by app_eq.
  rewrite firstn_consumed, run_value by assumption.
  match goal with |- exists g2 post, ?o = _ /\ _ => destruct o as [[cs post]|] eqn:E end.
  - apply run_sound in E. destruct E as (w & rest' & cs' & HC' & Hden & HK).
    rewrite HC' in HK.
    change (QUOTE :: w ++ rest') with ((QUOTE :: w) ++ rest') in HK.
    rewrite firstn_consumed in HK. inversion HK; subst cs post. clear HK.
    simpl in Hden. destruct Hden as (w1 & w2 & cs1 & _ & [_ ->] & _ & _ & ->).
    exists (QUOTE :: w), rest'. split; [reflexivity|]. now rewrite HC'.
  - exfalso. rewrite HC in E. cbv beta in E.
    destruct (@run_close_complete _
                (fun p' s' cs' =>
                   Some
                     ((2%nat,
                       firstn (length (QUOTE :: ws ++ rest) - length s')
                         (QUOTE :: ws ++ rest)) :: cs', s'))
                ws rest (Some QUOTE) [(1%nat, g1 ++ [QUOTE])] Hws Heol)
      as (r & Hr); [eauto|].
    assert (Hc : Some r = None)
      by (etransitivity; [symmetry; exact Hr | exact E]).
    discriminate Hc.
Qed.

Lemma search_from_quiet r : forall pre before s,
    quiet r before pre s = true ->
    search_from r before (pre ++ s) = search_from r (rev pre ++ before) s.
Proof.
  induction pre as [|c pre IH]; intros before s H; [reflexivity|].
  simpl in *.
  destruct (match_here r (hd_error before) (c :: pre ++ s)); [discriminate|].
  rewrite IH by assumption. now rewrite <- app_assoc.
Qed.

Lemma search_from_here r before s cs rest :
  match_here r (hd_error before) s = Some (cs, rest) ->
  search_from r before s = Some (RMatch (rev before) cs rest).
Proof. intros H. destruct s; simpl; now rewrite H. Qed.

Lemma quiet_app r : forall p1 p2 before s,
    quiet r before p1 (p2 ++ s) = true ->
    quiet r (rev p1 ++ before) p2 s = true ->
    quiet r before (p1 ++ p2) s = true.
Proof.
  induction p1 as [|c p1 IH]; intros p2 before s H1 H2; [exact H2|].
  simpl in *. rewrite <- app_assoc.
  destruct (match_here r (hd_error before) (c :: p1 ++ p2 ++ s));
    [discriminate|].
  apply IH; auto. now rewrite <- app_assoc in H2.
Qed.

Lemma quiet_line_end G : forall w c before s,
    at_bol (hd_error before) = false ->
    Forall (fun c => (c =? NL) = false) w ->
    quiet (field_pattern G) before (w ++ [c]) s = true.
Proof.
  induction w as [|x w IH]; intros c before s Hb Hw.
  - simpl. now rewrite match_here_not_bol.
  - inversion Hw; subst. simpl. rewrite match_here_not_bol by assumption.
    now apply IH.
Qed.

Lemma run_spaces_last R (K : cont R) c ws X prev cs :
  all is_space ws -> is_space c = false ->
  run (Cat (Star is_space) (Lit c)) prev (ws ++ c :: X) cs K
  = K (Some c) X cs.
Proof.
  intros Hws Hc. rewrite run_cat. cbn [run].
  rewrite star_skip; auto.
  - rewrite star_stop by assumption. now rewrite N.eqb_refl.
  - intros prev' x s Hx. destruct (x =? c) eqn:E; [|reflexivity].
    apply N.eqb_eq in E. congruence.
Qed.

(** The opening part of a colour line, with any white space. *)
Lemma reads_color_open prev ws0 ws1 :
  all is_space ws0 -> all is_space ws1 ->
  reads color_open prev (ws0 ++ str "color:" ++ ws1).
Proof.
  intros H0 H1 R k X cs. unfold color_open.
  replace ((ws0 ++ str "color:" ++ ws1) ++ QUOTE :: X)
    with (ws0 ++ 99 :: str "olor:" ++ ws1 ++ QUOTE :: X) by app_eq.
  change (lit (str "color:") ?r) with (Cat (Lit 99) (lit (str "olor:") r)).
  rewrite run_spaces by (assumption || reflexivity).
  rewrite run_lit by discriminate.
  now rewrite run_spaces_last by (assumption || reflexivity).
Qed.

(** The opening part of the nested pattern, with any white space: the key,
    white space that holds a line break, and the opening part of a colour
    line.  The line break that the pattern names may be any line break of
    that white space; every choice leads to the same place. *)
Lemma reads_android12_open prev j e1 k s :
  all is_space j -> all is_space e1 -> all is_space k -> all is_space s ->
  reads android12_open prev
    (j ++ str "android_12:" ++ e1 ++ NL :: k ++ str "color:" ++ s).
Proof.
  intros Hj He1 Hk Hs R K X cs. unfold android12_open.
  replace ((j ++ str "android_12:" ++ e1 ++ NL :: k ++ str "color:" ++ s)
             ++ QUOTE :: X)
    with (j ++ 97 :: str "ndroid_12:"
            ++ (e1 ++ NL :: k) ++ (99 :: str "olor:" ++ s ++ QUOTE :: X))
    by app_eq.
  change (lit (str "android_12:") ?r)
    with (Cat (Lit 97) (lit (str "ndroid_12:") r)).
  rewrite run_spaces by (assumption || reflexivity).
  rewrite run_lit by discriminate.
  rewrite run_cat.
  change (run (Star is_space) ?p ?t cs ?k)
    with (star is_space p t (fun p' s' => k p' s' cs)).
  assert (Hw : all is_space (e1 ++ NL :: k)).
  { apply Forall_app. split; [assumption|]. constructor; [reflexivity|assumption]. }
  apply star_among.
  - intros prev'. now rewrite star_stop by reflexivity.
  - intros w1 w2 Hsplit. rewrite Hsplit in Hw. apply Forall_app in Hw.
    destruct Hw as [_ Hw2]. destruct w2 as [|c w2]; [now left|].
    rewrite run_cat. cbn [run app].
    destruct (c =? NL) eqn:Ec; [right|now left].
    inversion Hw2; subst.
    pose proof (@reads_color_open (Some c) w2 s H2 Hs R K X cs) as Hr.
    rewrite <- Hr. f_equal. app_eq.
  - exists e1, (NL :: k). split; [reflexivity|]. split; [assumption|].
    rewrite run_cat. cbn [run app]. rewrite N.eqb_refl.
    pose proof (@reads_color_open (Some NL) k s Hk Hs R K X cs) as Hr.
    rewrite <- Hr. f_equal. app_eq.
Qed.

(** A line that starts, after white space, with another word than the
    pattern's. *)
Lemma root_not_here prev ws c X :
  all is_space ws -> is_space c = false -> (c =? 99) = false ->
  match_here pattern_root prev (ws ++ c :: X) = None.
Proof.
  intros Hws Hs Hc. unfold match_here, pattern_root, color_open.
  rewrite !run_cat, !run_group, !run_cat, !run_bol.
  destruct (at_bol prev); [|reflexivity].
  change (lit (str "color:") ?r) with (Cat (Lit 99) (lit (str "olor:") r)).
  rewrite run_cat. cbn [run]. rewrite star_skip; auto.
  - rewrite star_stop by assumption. now rewrite Hc.
  - intros prev' x s Hx. destruct (x =? 99) eqn:E; [|reflexivity].
    apply N.eqb_eq in E. subst x. discriminate.
Qed.

Lemma closes_end e rest :
  all is_space e -> at_eol rest = true -> closes (e ++ rest).
Proof. intros He Hr. exists e, rest. auto. Qed.

(** What follows whole lines starts a line. *)
Lemma ends_line_after A M :
  ends_line M = true -> hd_error (rev (A ++ NL :: M)) = Some NL.
Proof.
  unfold ends_line. intros H. rewrite rev_app_distr. simpl.
  destruct (rev M) as [|c r]; [reflexivity|].
  simpl in *. apply N.eqb_eq in H. now subst c.
Qed.

Lemma spaces_cons a l :
  spaces (a :: l) = true <-> all is_space a /\ spaces l = true.
Proof.
  unfold spaces. simpl. rewrite andb_true_iff.
  unfold all. now rewrite forallb_forall, Forall_forall.
Qed.

Lemma search_quiet_here r pre s cs rest :
  quiet r [] pre s = true ->
  match_here r (hd_error (rev pre)) s = Some (cs, rest) ->
  search r (pre ++ s) = Some (RMatch pre cs rest).
Proof.
  intros Hq Hm. unfold search. rewrite search_from_quiet by assumption.
  rewrite app_nil_r. rewrite (search_from_here _ _ _ Hm).
  now rewrite rev_involutive.
Qed.

(** A field at the start of a line, with a value that the patterns accept
    and the end of the line after it, is a match; it is the first match when
    no earlier position matches. *)
Lemma search_field_found G P g1 v C :
  reads G (hd_error (rev P)) g1 -> ends_line P = true -> valstr v ->
  closes C ->
  exists m,
    search (field_pattern G) (P ++ g1 ++ QUOTE :: v ++ QUOTE :: C) = Some m.
Proof.
  intros HG Hb Hv HC.
  destruct (@match_here_reads G _ g1 v C HG Hb Hv HC) as (g2 & post & Hm & _).
  apply (@search_from_complete (field_pattern G) P [] _
           ([(2%nat, g2); (1%nat, g1 ++ [QUOTE])], post)).
  now rewrite app_nil_r.
Qed.

Lemma search_field_here G P g1 v C :
  reads G (hd_error (rev P)) g1 -> ends_line P = true -> valstr v ->
  closes C ->
  quiet (field_pattern G) [] P (g1 ++ QUOTE :: v ++ QUOTE :: C) = true ->
  exists g2 post,
    search (field_pattern G) (P ++ g1 ++ QUOTE :: v ++ QUOTE :: C)
    = Some (RMatch P [(2%nat, g2); (1%nat, g1 ++ [QUOTE])] post)
    /\ g2 ++ post = QUOTE :: C.
Proof.
  intros HG Hb Hv HC Hq.
  destruct (@match_here_reads G _ g1 v C HG Hb Hv HC) as (g2 & post & Hm & Hg2).
  exists g2, post. split; [|exact Hg2].
  now apply search_quiet_here.
Qed.

Lemma valstrb_true v : valstrb v = true <-> valstr v.
Proof.
  unfold valstrb, valstr, all. rewrite Forall_forall.
  destruct v as [|c v].
  - split; [discriminate|]. intros [H _]. congruence.
  - rewrite forallb_forall. split.
    + intros H. split; [discriminate|exact H].
    + intros [_ H]. exact H.
Qed.

(** [update_pubspec] returns when both patterns match somewhere. *)
Lemma update_pubspec_returns h w :
  valstr h ->
  search pattern_root (pubspec w) <> None ->
  search pattern_android12 (pubspec w) <> None ->
  exists c w', update_pubspec h w = (Return c, w').
Proof.
  intros Hh Hr Ha. rewrite update_pubspec_unfold.
  destruct (search pattern_root (pubspec w)) as [mr|] eqn:Er; [|congruence].
  destruct (search pattern_android12 (set_value mr h)) as [ma|] eqn:Ea.
  - destruct (text_eqb (set_value ma h) (pubspec w)); eauto.
  - exfalso. apply Ha.
    apply (@replace_none_inv color_open android12_open _ mr h
             color_open_qlast android12_open_qlast Hh Er Ea).
Qed.

(** ** A manifest with the root colour line before the [android_12] section *)

Section Fields.
Variables (P i s e M j e1 k s' e2 T : text).
Hypotheses (Hi : all is_space i) (Hs : all is_space s) (He : all is_space e)
           (Hj : all is_space j) (He1 : all is_space e1)
           (Hk : all is_space k) (Hs' : all is_space s')
           (He2 : all is_space e2).
Hypotheses (HP : ends_line P = true) (HM : ends_line M = true)
           (HT : at_eol T = true).

(** The manifest, around the root value and around the nested value. *)
Lemma fields_around_root y z :
  P ++ color_line i s y e ++ NL :: M ++ android12_lines j e1 k s' z e2 ++ T
  = (P ++ i ++ str "color:" ++ s)
      ++ QUOTE :: y
      ++ QUOTE :: (e ++ NL :: M ++ android12_lines j e1 k s' z e2 ++ T).
Proof. unfold color_line. app_eq. Qed.

Lemma fields_around_nested y z :
  P ++ color_line i s y e ++ NL :: M ++ android12_lines j e1 k s' z e2 ++ T
  = (P ++ color_line i s y e ++ NL :: M)
      ++ (j ++ str "android_12:" ++ e1 ++ NL :: k ++ str "color:" ++ s')
      ++ QUOTE :: z ++ QUOTE :: e2 ++ T.
Proof. unfold android12_lines, color_line. app_eq. Qed.

(** Both patterns match in such a manifest. *)
Lemma fields_found v x :
  valstr v -> valstr x ->
  search pattern_root
    (P ++ color_line i s v e ++ NL :: M ++ android12_lines j e1 k s' x e2 ++ T)
  <> None
  /\ search pattern_android12
       (P ++ color_line i s v e ++ NL :: M
          ++ android12_lines j e1 k s' x e2 ++ T)
     <> None.
Proof using All.
  intros Hv Hx. split.
  - rewrite fields_around_root.
    destruct (@search_field_found color_open P (i ++ str "color:" ++ s) v
                (e ++ NL :: M ++ android12_lines j e1 k s' x e2 ++ T))
      as (m & Hm); auto using reads_color_open, closes_end.
    rewrite <- app_assoc. change pattern_root with (field_pattern color_open).
    rewrite Hm. discriminate.
  - rewrite fields_around_nested.
    destruct (@search_field_found android12_open
                (P ++ color_line i s v e ++ NL :: M)
                (j ++ str "android_12:" ++ e1 ++ NL :: k ++ str "color:" ++ s')
                x (e2 ++ T))
      as (m & Hm); auto using reads_android12_open, closes_end.
    { unfold ends_line. now rewrite app_assoc, ends_line_after. }
    change pattern_android12 with (field_pattern android12_open).
    rewrite Hm. discriminate.
Qed.

(** When the two fields are the first occurrences, [update_pubspec] sets
    their two values and keeps everything else. *)
Lemma update_pubspec_fields h v x w :
  valstr h -> valstr v -> valstr x ->
  pubspec w
  = P ++ color_line i s v e ++ NL :: M ++ android12_lines j e1 k s' x e2 ++ T ->
  quiet pattern_root [] P
    (color_line i s v e ++ NL :: M ++ android12_lines j e1 k s' x e2 ++ T)
  = true ->
  quiet pattern_android12 [] (P ++ color_line i s v e ++ NL :: M)
    (android12_lines j e1 k s' x e2 ++ T)
  = true ->
  update_pubspec h w =
  if text_eqb
       (P ++ color_line i s h e ++ NL :: M
          ++ android12_lines j e1 k s' h e2 ++ T) (pubspec w)
  then (Return false, w)
  else (Return true,
        World (app_config w)
          (P ++ color_line i s h e ++ NL :: M
             ++ android12_lines j e1 k s' h e2 ++ T) (stdout w)).
Proof using All.
  intros Hh Hv Hx Hw Hqr Hqa.
  set (gr := i ++ str "color:" ++ s).
  set (ga := j ++ str "android_12:" ++ e1 ++ NL :: k ++ str "color:" ++ s').
  set (D := e ++ NL :: M).
  assert (Hgr : forall y z,
             P ++ color_line i s y e ++ NL :: M
               ++ android12_lines j e1 k s' z e2 ++ T
             = P ++ gr ++ QUOTE :: y
                 ++ QUOTE :: (D ++ ga ++ QUOTE :: z ++ QUOTE :: e2 ++ T)).
  { intros y z. unfold color_line, android12_lines, color_line, gr, ga, D.
    app_eq. }
  assert (Hpre : forall y,
             P ++ color_line i s y e ++ NL :: M
             = (P ++ gr) ++ QUOTE :: y ++ QUOTE :: D).
  { intros y. unfold color_line, gr, D. app_eq. }
  (* the root colour line is the first match of the root pattern *)
  destruct (@search_field_here color_open P gr v
              (D ++ ga ++ QUOTE :: x ++ QUOTE :: e2 ++ T))
    as (g2 & post & Er & Hg2).
  { apply reads_color_open; assumption. }
  { exact HP. }
  { exact Hv. }
  { unfold D. rewrite <- app_assoc. apply closes_end; [assumption|reflexivity]. }
  { rewrite <- Hqr. f_equal.
    unfold color_line, android12_lines, color_line, gr, ga, D. app_eq. }
  (* the nested field is the first match of the nested pattern *)
  destruct (@search_field_here android12_open
              (P ++ color_line i s v e ++ NL :: M) ga x (e2 ++ T))
    as (k2 & post' & Ea & Hk2).
  { apply reads_android12_open; assumption. }
  { unfold ends_line. now rewrite app_assoc, ends_line_after. }
  { exact Hx. }
  { now apply closes_end. }
  { rewrite <- Hqa. f_equal. unfold android12_lines, color_line, ga. app_eq. }
  (* and it stays the first match when the root value is replaced *)
  assert (Ea' : search (field_pattern android12_open)
                  ((P ++ gr) ++ QUOTE :: v
                     ++ QUOTE :: (D ++ ga ++ QUOTE :: x ++ QUOTE :: e2 ++ T))
                = Some (RMatch ((P ++ gr) ++ QUOTE :: v ++ QUOTE :: D)
                          [(2%nat, k2); (1%nat, ga ++ [QUOTE])] post')).
  { rewrite <- Hpre, <- Ea. f_equal. rewrite Hpre. app_eq. }
  apply (@search_replace_before android12_open v h _ _ _ _ _
           android12_open_qlast Hv Hh) in Ea'.
  rewrite update_pubspec_unfold, Hw, Hgr.
  change pattern_root with (field_pattern color_open).
  change pattern_android12 with (field_pattern android12_open).
  rewrite Er. unfold set_value at 1. cbn [m_pre m_groups m_post group Nat.eqb].
  rewrite Hg2.
  replace (P ++ (gr ++ [QUOTE]) ++ h
             ++ QUOTE :: D ++ ga ++ QUOTE :: x ++ QUOTE :: e2 ++ T)
    with ((P ++ gr) ++ QUOTE :: h
            ++ QUOTE :: (D ++ ga ++ QUOTE :: x ++ QUOTE :: e2 ++ T))
    by app_eq.
  rewrite Ea'. unfold set_value. cbn [m_pre m_groups m_post group Nat.eqb].
  rewrite Hk2.
  replace (((P ++ gr) ++ QUOTE :: h ++ QUOTE :: D) ++ (ga ++ [QUOTE]) ++ h
             ++ QUOTE :: e2 ++ T)
    with (P ++ color_line i s h e ++ NL :: M
            ++ android12_lines j e1 k s' h e2 ++ T)
    by (rewrite Hgr; app_eq).
  rewrite <- Hgr. reflexivity.
Qed.
End Fields.

Lemma well_formed_parts L :
  well_formed L = true ->
  (all is_space (root_indent L) /\ all is_space (root_gap L)
   /\ all is_space (root_end L) /\ all is_space (key_indent L)
   /\ all is_space (key_end L) /\ all is_space (nested_indent L)
   /\ all is_space (nested_gap L) /\ all is_space (nested_end L))
  /\ ends_line (head_lines L) = true /\ ends_line (mid_lines L) = true
  /\ at_eol (tail_text L) = true.
Proof.
  unfold well_formed. rewrite !andb_true_iff, !spaces_cons. tauto.
Qed.

(** C8, as stated, fails: with the empty value in both fields the root
    pattern matches nowhere and [update_pubspec] ends with the
    field-not-found error. *)
Lemma update_pubspec_rejects_empty_values :
  search pattern_root (manifest_standard [] []) = None
  /\ update_pubspec (str "#2196F3") (World [] (manifest_standard [] []) [])
     = (SystemExit msg_pubspec, World [] (manifest_standard [] []) []).
Proof. vm_compute. split; reflexivity. Qed.

(** C8, amended: colour fields whose quoted values [v] and [x] are
    non-empty runs of [#0-9A-Fa-f] are accepted.  For a manifest that holds
    a line [color: v] and, after it, the key [android_12:] followed by a line
    [color: x], with any text in whole lines before and between them, any
    text after them and any white space that the patterns allow,
    [update_pubspec] raises no error and leaves the first match of each
    pattern with [hex_color].  When the two fields are the first occurrences
    of their patterns, the result is the same manifest with [hex_color] in
    both places and everything else as it was. *)
Theorem update_pubspec_rewrites_nonempty_values h w L v x :
  HexColorString h = true -> valstrb v = true -> valstrb x = true ->
  well_formed L = true ->
  pubspec w = manifest_of L v x ->
  (exists c w',
      update_pubspec h w = (Return c, w') /\ synced h (pubspec w'))
  /\ (first_fields L v x = true ->
      fst (update_pubspec h w)
      = Return (negb (text_eqb (manifest_of L h h) (pubspec w)))
      /\ pubspec (snd (update_pubspec h w)) = manifest_of L h h).
Proof.
  intros Hh Hv Hx HL Hw. apply hex_color_valstr in Hh.
  apply valstrb_true in Hv, Hx.
  destruct (well_formed_parts _ HL)
    as ((Hi & Hs & He & Hj & He1 & Hk & Hs' & He2) & HP & HM & HT).
  unfold manifest_of, root_line, nested_lines in *. split.
  - destruct (@fields_found (head_lines L) (root_indent L) (root_gap L)
                (root_end L) (mid_lines L) (key_indent L) (key_end L)
                (nested_indent L) (nested_gap L) (nested_end L) (tail_text L)
                Hi Hs He Hj He1 Hk Hs' He2 HP HM HT v x Hv Hx) as [Hr Ha].
    rewrite <- Hw in Hr, Ha.
    destruct (@update_pubspec_returns h w Hh Hr Ha) as (c & w' & Hu).
    exists c, w'. split; [exact Hu|].
    now destruct (@update_pubspec_return_synced _ _ _ _ Hh Hu).
  - intros Hf. unfold first_fields, root_line, nested_lines in Hf.
    apply andb_true_iff in Hf. destruct Hf as [Hqr Hqa].
    rewrite (@update_pubspec_fields (head_lines L) (root_indent L)
               (root_gap L) (root_end L) (mid_lines L) (key_indent L)
               (key_end L) (nested_indent L) (nested_gap L) (nested_end L)
               (tail_text L) Hi Hs He Hj He1 Hk Hs' He2 HP HM HT
               h v x w Hh Hv Hx Hw Hqr Hqa).
    destruct (text_eqb _ (pubspec w)) eqn:E; simpl; split; auto.
    apply text_eqb_eq in E. now symmetry.
Qed.

(** A manifest with other lines before, between and after the two fields,
    tabs and trailing white space. *)
Lemma update_pubspec_rewrites_nonempty_values_witness :
  let L :=
    Layout (str "name: app" ++ [NL] ++ str "flutter_native_splash:" ++ [NL])
      (str "  ") (str " ") [32]
      (str "  image: assets/logo.png" ++ [NL])
      (str "  ") [32] [9] [] []
      (NL :: str "  color_dark: " ++ QUOTE :: str "#121212" ++ [QUOTE; NL]) in
  let w := World [] (manifest_of L (str "#fff") (str "#0A0b0C")) [] in
  (exists c w',
      update_pubspec (str "#2196F3") w = (Return c, w')
      /\ synced (str "#2196F3") (pubspec w'))
  /\ fst (update_pubspec (str "#2196F3") w) = Return true
  /\ pubspec (snd (update_pubspec (str "#2196F3") w))
     = manifest_of L (str "#2196F3") (str "#2196F3").
Proof.
  intros L w.
  destruct (@update_pubspec_rewrites_nonempty_values (str "#2196F3") w L
              (str "#fff") (str "#0A0b0C") eq_refl eq_refl eq_refl eq_refl
              eq_refl) as [H1 H2].
  split; [exact H1|exact (H2 eq_refl)].
Defined.

(** * The theme colour *)

Lemma forallb_all p w : forallb p w = true <-> all p w.
Proof. unfold all. now rewrite forallb_forall, Forall_forall. Qed.

Lemma match_here_theme prev ws1 ws2 D post :
  all is_space ws1 -> all is_space ws2 -> length D = 6%nat -> all is_hex D ->
  match_here pattern_theme prev (declaration ws1 ws2 D ++ post)
  = Some ([(1%nat, D)], post).
Proof.
  intros H1 H2 HD Hhex.
  replace (declaration ws1 ws2 D ++ post)
    with (str "themePrimaryColorValue"
            ++ ws1 ++ 61 :: ws2 ++ 48 :: str "xFF" ++ D ++ post)
    by (unfold declaration; app_eq).
  unfold match_here, pattern_theme.
  rewrite run_lit by discriminate.
  rewrite run_spaces by (assumption || reflexivity).
  change (lit (str "0xFF") ?r) with (Cat (Lit 48) (lit (str "xFF") r)).
  rewrite run_spaces by (assumption || reflexivity).
  rewrite run_lit by discriminate.
  rewrite run_group. cbn [run]. rewrite <- HD.
  rewrite times_exact by assumption. now rewrite firstn_consumed.
Qed.

Lemma match_here_theme_shape prev s cs rest :
  match_here pattern_theme prev s = Some (cs, rest) ->
  exists D, cs = [(1%nat, D)] /\ length D = 6%nat /\ all is_hex D.
Proof.
  intros H. unfold match_here in H. apply run_sound in H.
  destruct H as (w & rest' & cs' & -> & Hden & HK).
  inversion HK; subst cs' rest'. clear HK.
  cbv [pattern_theme str lit List.map list_ascii_of_string] in Hden.
  simpl den in Hden.
  repeat match goal with
         | H : exists _, _ |- _ => destruct H
         | H : _ /\ _ |- _ => destruct H
         end.
  subst. eauto.
Qed.

Lemma extract_theme_hex_unfold w :
  extract_theme_hex w =
  match search pattern_theme (app_config w) with
  | None => (SystemExit msg_theme, w)
  | Some m => (Return (str "#" ++ upper (group 1 (m_groups m))), w)
  end.
Proof.
  unfold extract_theme_hex, bind, read_text, raise_SystemExit, ret.
  destruct (search pattern_theme (app_config w)); reflexivity.
Qed.

Lemma upper_hex_digit c : is_hex c = true -> is_upper_hex (upper_char c) = true.
Proof.
  intros H. unfold upper_char.
  destruct ((97 <=? c) && (c <=? 122)) eqn:E; bool_lia.
Qed.

Lemma hex_color_of_digits D :
  length D = 6%nat -> all is_hex D ->
  HexColorString (str "#" ++ upper D) = true.
Proof.
  intros HD Hhex. simpl. unfold upper. rewrite length_map, HD. simpl.
  apply forallb_forall. intros x Hx. apply in_map_iff in Hx.
  destruct Hx as (c & <- & Hc). apply upper_hex_digit.
  unfold all in Hhex. rewrite Forall_forall in Hhex. auto.
Qed.

(** The value that [extract_theme_hex] returns is always a hash sign and six
    upper-case hexadecimal digits. *)
Lemma extract_theme_hex_return w r w' :
  extract_theme_hex w = (Return r, w') ->
  w' = w /\ HexColorString r = true.
Proof.
  rewrite extract_theme_hex_unfold.
  destruct (search pattern_theme (app_config w)) as [m|] eqn:E; [|discriminate].
  intros H. inversion H; subst. split; [reflexivity|].
  apply search_from_sound in E. destruct E as (sk & s' & _ & _ & Hm).
  apply match_here_theme_shape in Hm. destruct Hm as (D & -> & HD & Hhex).
  now apply hex_color_of_digits.
Qed.

(** The declaration at the first position where the pattern matches. *)
Lemma extract_theme_hex_at w pre ws1 ws2 D post :
  app_config w = pre ++ declaration ws1 ws2 D ++ post ->
  all is_space ws1 -> all is_space ws2 -> length D = 6%nat -> all is_hex D ->
  quiet pattern_theme [] pre (declaration ws1 ws2 D ++ post) = true ->
  extract_theme_hex w = (Return (str "#" ++ upper D), w).
Proof.
  intros Hw H1 H2 HD Hhex Hq. rewrite extract_theme_hex_unfold, Hw.
  rewrite (@search_quiet_here pattern_theme pre _ [(1%nat, D)] post Hq);
    [reflexivity|].
  now apply match_here_theme.
Qed.

(** C1, as stated, fails: a text with two declarations contains
    [themePrimaryColorValue = 0xFF] followed by the six digits [112233],
    and [extract_theme_hex] returns the colour of the earlier declaration,
    [#000000]. *)
Lemma extract_theme_hex_takes_first_declaration :
  let w :=
    World (str "themePrimaryColorValue = 0xFF000000;" ++ [NL]
           ++ str "themePrimaryColorValue = 0xFF" ++ str "112233" ++ str ";")
          [] [] in
  extract_theme_hex w = (Return (str "#000000"), w)
  /\ str "#000000" <> str "#" ++ upper (str "112233").
Proof. vm_compute. split; [reflexivity|discriminate]. Qed.

(** C1, amended: for every declaration text containing
    [themePrimaryColorValue = 0xFF] followed by six hexadecimal digits [D]
    (any white space around the equals sign), [extract_theme_hex] succeeds
    and returns a hash sign and six upper-case digits; the result is [#]
    followed by [upper D] when the pattern matches at no earlier position:
    the first match wins. *)
Theorem extract_theme_hex_first_match w pre ws1 ws2 D post :
  app_config w = pre ++ declaration ws1 ws2 D ++ post ->
  forallb is_space ws1 = true -> forallb is_space ws2 = true ->
  length D = 6%nat -> forallb is_hex D = true ->
  (exists r, extract_theme_hex w = (Return r, w) /\ HexColorString r = true)
  /\ (quiet pattern_theme [] pre (declaration ws1 ws2 D ++ post) = true ->
      extract_theme_hex w = (Return (str "#" ++ upper D), w)).
Proof.
  intros Hw H1 H2 HD Hhex.
  apply forallb_all in H1, H2, Hhex. split.
  - destruct (@search_from_complete pattern_theme pre []
                (declaration ws1 ws2 D ++ post) ([(1%nat, D)], post))
      as (m & Hm).
    { rewrite app_nil_r. now apply match_here_theme. }
    pose proof (extract_theme_hex_unfold w) as Hu.
    unfold search in Hu. rewrite Hw, Hm in Hu.
    eexists. split; [exact Hu|].
    now apply (@extract_theme_hex_return w _ w).
  - intros Hq. now apply (@extract_theme_hex_at w pre ws1 ws2 D post).
Qed.

Lemma extract_theme_hex_first_match_witness :
  let w := World (str "const int themePrimaryColorValue  =0xFF21a6f3;") [] [] in
  (exists r, extract_theme_hex w = (Return r, w) /\ HexColorString r = true)
  /\ extract_theme_hex w = (Return (str "#21A6F3"), w).
Proof.
  pose proof (@extract_theme_hex_first_match
                (World (str "const int themePrimaryColorValue  =0xFF21a6f3;")
                   [] [])
                (str "const int ") (str "  ") [] (str "21a6f3") (str ";")
                eq_refl eq_refl eq_refl eq_refl eq_refl) as [H1 H2].
  split; [exact H1|exact (H2 eq_refl)].
Defined.

(** C3, as stated, fails: the prefix [0xFF] is matched as written, so the
    input [0xffa1b2c3] is not found and no colour is returned. *)
Lemma extract_theme_hex_lower_prefix_not_found :
  let w := World (str "themePrimaryColorValue = 0xffa1b2c3") [] [] in
  extract_theme_hex w = (SystemExit msg_theme, w).
Proof. vm_compute. reflexivity. Qed.

(** C3, amended: extraction ignores the case of the six colour digits and
    returns them in upper case; the prefix [0xFF] has to be written in that
    case.  Two declarations whose digits differ in case only, each the
    first match of its text, yield the same result, in upper case. *)
Theorem extract_theme_hex_digit_case w1 w2 pre post D1 D2 :
  app_config w1 = pre ++ str "themePrimaryColorValue = 0xFF" ++ D1 ++ post ->
  app_config w2 = pre ++ str "themePrimaryColorValue = 0xFF" ++ D2 ++ post ->
  length D1 = 6%nat -> length D2 = 6%nat ->
  forallb is_hex D1 = true -> forallb is_hex D2 = true ->
  upper D1 = upper D2 ->
  quiet pattern_theme [] pre
    (str "themePrimaryColorValue = 0xFF" ++ D1 ++ post) = true ->
  quiet pattern_theme [] pre
    (str "themePrimaryColorValue = 0xFF" ++ D2 ++ post) = true ->
  extract_theme_hex w1 = (Return (str "#" ++ upper D1), w1)
  /\ extract_theme_hex w2 = (Return (str "#" ++ upper D1), w2)
  /\ HexColorString (str "#" ++ upper D1) = true.
Proof.
  intros Hw1 Hw2 HD1 HD2 Hh1 Hh2 Hup Hq1 Hq2.
  apply forallb_all in Hh1, Hh2.
  assert (Hd : forall D,
             str "themePrimaryColorValue = 0xFF" ++ D ++ post
             = declaration (str " ") (str " ") D ++ post).
  { intros D. unfold declaration. app_eq. }
  rewrite Hd in Hw1, Hw2, Hq1, Hq2.
  assert (Hsp : all is_space (str " ")) by (constructor; [reflexivity|constructor]).
  split; [|split].
  - now apply (@extract_theme_hex_at w1 pre (str " ") (str " ") D1 post).
  - rewrite Hup.
    now apply (@extract_theme_hex_at w2 pre (str " ") (str " ") D2 post).
  - now apply hex_color_of_digits.
Qed.

Lemma extract_theme_hex_digit_case_witness :
  let w1 := World (str "int themePrimaryColorValue = 0xFFa1b2c3;") [] [] in
  let w2 := World (str "int themePrimaryColorValue = 0xFFA1B2C3;") [] [] in
  extract_theme_hex w1 = (Return (str "#A1B2C3"), w1)
  /\ extract_theme_hex w2 = (Return (str "#A1B2C3"), w2)
  /\ HexColorString (str "#A1B2C3") = true.
Proof.
  exact (@extract_theme_hex_digit_case
           (World (str "int themePrimaryColorValue = 0xFFa1b2c3;") [] [])
           (World (str "int themePrimaryColorValue = 0xFFA1B2C3;") [] [])
           (str "int ") (str ";") (str "a1b2c3") (str "A1B2C3")
           eq_refl eq_refl eq_refl eq_refl eq_refl eq_refl eq_refl
           eq_refl eq_refl).
Defined.

(** * The whole script *)

Lemma main_unfold w :
  main w =
  match extract_theme_hex w with
  | (Return h, w1) =>
      match update_pubspec h w1 with
      | (Return changed, w2) =>
          (Return tt,
           World (app_config w2) (pubspec w2)
             (stdout w2
                ++ [str "Splash color "
                      ++ (if changed then str "updated"
                          else str "already in sync")
                      ++ str ": " ++ h]))
      | (SystemExit msg, w2) => (SystemExit msg, w2)
      end
  | (SystemExit msg, w1) => (SystemExit msg, w1)
  end.
Proof.
  unfold main, bind, print.
  destruct (extract_theme_hex w) as [[h|msg] w1]; [|reflexivity].
  destruct (update_pubspec h w1) as [[changed|msg] w2]; reflexivity.
Qed.

(** C9, as stated, fails.  A manifest whose [android_12] section comes
    first holds the root [color] with [#000000] and the [android_12] section
    whose next line is [color] with [#000000]; [main] prints
    [Splash color updated: #2196F3] and the root-level field still holds
    [#000000].  And a declaration file that holds the declaration of the
    scenario after another one ends with [already in sync: #000000] and no
    field rewritten. *)
Lemma main_rewrites_first_matches_only :
  (let w :=
     World (str "themePrimaryColorValue = 0xFF2196F3")
       (manifest_nested_first (str "#000000") (str "#000000")) [] in
   main w
   = (Return tt,
      World (app_config w)
        (manifest_nested_first (str "#000000") (str "#2196F3"))
        [str "Splash color updated: #2196F3"]))
  /\ (let w :=
        World (str "themePrimaryColorValue = 0xFF000000;" ++ [NL]
               ++ str "themePrimaryColorValue = 0xFF2196F3;")
          (manifest_standard (str "#000000") (str "#000000")) [] in
      main w
      = (Return tt,
         World (app_config w) (pubspec w)
           [str "Splash color already in sync: #000000"])).
Proof. vm_compute. split; reflexivity. Qed.

(** C9, amended: the end-to-end scenario, for the first occurrences.  The
    declaration file holds [themePrimaryColorValue = 0xFF2196F3] as the
    first match of the theme pattern.  The manifest holds a line [color]
    with [#000000] and, after it, the key [android_12:] followed by a line
    [color] with [#000000], as the first occurrences of the two patterns;
    any text in whole lines comes before and between them, any text after
    them, with any white space that the patterns allow.  [main] rewrites
    both fields to [#2196F3], keeps everything else and prints the one line
    [Splash color updated: #2196F3]; run again, it changes no file and
    prints [Splash color already in sync: #2196F3]. *)
Theorem main_end_to_end w pre post L :
  app_config w = pre ++ str "themePrimaryColorValue = 0xFF2196F3" ++ post ->
  quiet pattern_theme [] pre
    (str "themePrimaryColorValue = 0xFF2196F3" ++ post) = true ->
  well_formed L = true ->
  pubspec w = manifest_of L (str "#000000") (str "#000000") ->
  first_fields L (str "#000000") (str "#000000") = true ->
  let w1 :=
    World (app_config w)
      (manifest_of L (str "#2196F3") (str "#2196F3"))
      (stdout w ++ [str "Splash color updated: #2196F3"]) in
  main w = (Return tt, w1)
  /\ main w1
     = (Return tt,
        World (app_config w1) (pubspec w1)
          (stdout w1 ++ [str "Splash color already in sync: #2196F3"])).
Proof.
  intros Hw Hq HL Hp Hf w1.
  assert (Hd : str "themePrimaryColorValue = 0xFF2196F3" ++ post
               = declaration (str " ") (str " ") (str "2196F3") ++ post).
  { unfold declaration. app_eq. }
  rewrite Hd in Hw, Hq.
  assert (Hsp : all is_space (str " ")) by (constructor; [reflexivity|constructor]).
  assert (Hhex : all is_hex (str "2196F3")) by (now apply forallb_all).
  assert (Hh : valstr (str "#2196F3")) by (now apply valstrb_true).
  assert (H0 : valstr (str "#000000")) by (now apply valstrb_true).
  assert (He : forall u, app_config u = app_config w ->
                         extract_theme_hex u = (Return (str "#2196F3"), u)).
  { intros u Hu.
    apply (@extract_theme_hex_at u pre (str " ") (str " ") (str "2196F3") post);
      auto. now rewrite Hu. }
  destruct (well_formed_parts _ HL)
    as ((Hi & Hs & He0 & Hj & He1 & Hk & Hs' & He2) & HP & HM & HT).
  unfold first_fields, root_line, nested_lines in Hf.
  apply andb_true_iff in Hf. destruct Hf as [Hqr Hqa].
  assert (Hu : update_pubspec (str "#2196F3") w
               = (Return true,
                  World (app_config w)
                    (manifest_of L (str "#2196F3") (str "#2196F3"))
                    (stdout w))).
  { unfold manifest_of, root_line, nested_lines in *.
    rewrite (@update_pubspec_fields (head_lines L) (root_indent L)
               (root_gap L) (root_end L) (mid_lines L) (key_indent L)
               (key_end L) (nested_indent L) (nested_gap L) (nested_end L)
               (tail_text L) Hi Hs He0 Hj He1 Hk Hs' He2 HP HM HT
               (str "#2196F3") (str "#000000") (str "#000000") w
               Hh H0 H0 Hp Hqr Hqa).
    destruct (text_eqb _ (pubspec w)) eqn:E; [|reflexivity].
    exfalso. apply text_eqb_eq in E. rewrite Hp in E. unfold color_line in E.
    apply app_inv_head in E. rewrite <- !app_assoc in E.
    apply app_inv_head in E. apply app_inv_head in E.
    apply app_inv_head in E. discriminate E. }
  split.
  - rewrite main_unfold, (He w eq_refl), Hu. reflexivity.
  - destruct (@update_pubspec_return_synced _ _ _ _ Hh Hu) as (Hsy & _).
    rewrite main_unfold, (He w1 eq_refl).
    rewrite (@update_pubspec_synced (str "#2196F3") w1 Hsy). reflexivity.
Qed.

(** The scenario in a manifest with other lines before, between and after
    the two fields. *)
Lemma main_end_to_end_witness :
  let L :=
    Layout (str "name: app" ++ [NL] ++ str "flutter_native_splash:" ++ [NL])
      (str "  ") (str " ") []
      (str "  image: assets/logo.png" ++ [NL])
      (str "  ") [] (str "    ") (str " ") []
      (NL :: str "  web: false" ++ [NL]) in
  let w :=
    World (str "const int themePrimaryColorValue = 0xFF2196F3;")
      (manifest_of L (str "#000000") (str "#000000")) [] in
  let w1 :=
    World (str "const int themePrimaryColorValue = 0xFF2196F3;")
      (manifest_of L (str "#2196F3") (str "#2196F3"))
      [str "Splash color updated: #2196F3"] in
  main w = (Return tt, w1)
  /\ main w1
     = (Return tt,
        World (app_config w1) (pubspec w1)
          [str "Splash color updated: #2196F3";
           str "Splash color already in sync: #2196F3"]).
Proof.
  intros L w w1.
  exact (@main_end_to_end w (str "const int ") (str ";") L
           eq_refl eq_refl eq_refl eq_refl eq_refl).
Defined.

(** * Values that the patterns do not accept *)

Lemma has_quote_false s : has_quote s = false <-> ~ In QUOTE s.
Proof.
  unfold has_quote. split.
  - intros H Hin.
    assert (existsb (N.eqb QUOTE) s = true)
      by (apply existsb_exists; exists QUOTE; split; [assumption|apply N.eqb_refl]).
    congruence.
  - intros H. destruct (existsb (N.eqb QUOTE) s) eqn:E; [|reflexivity].
    apply existsb_exists in E. destruct E as (x & Hx & Hq).
    apply N.eqb_eq in Hq. subst x. contradiction.
Qed.

Lemma quotes_app a b : quotes (a ++ b) = (quotes a + quotes b)%nat.
Proof. apply count_occ_app. Qed.

Lemma quotes_cons_quote a : quotes (QUOTE :: a) = S (quotes a).
Proof. unfold quotes. now rewrite count_occ_cons_eq. Qed.

Lemma quotes_zero a : quotes a = 0%nat <-> ~ In QUOTE a.
Proof. unfold quotes. symmetry. apply count_occ_not_In. Qed.

(** A text is cut at its first double quote in one way only. *)
Lemma split_first_quote : forall a a' b b',
    ~ In QUOTE a -> ~ In QUOTE a' ->
    a ++ QUOTE :: b = a' ++ QUOTE :: b' -> a = a' /\ b = b'.
Proof.
  induction a as [|x a IH]; intros [|x' a'] b b' Ha Ha' H; simpl in *.
  - inversion H. auto.
  - inversion H; subst. exfalso. apply Ha'. now left.
  - inversion H; subst. exfalso. apply Ha. now left.
  - inversion H; subst.
    destruct (IH a' b b') as [-> ->]; auto.
Qed.




(** * One replacement for each pattern *)

(** [search] returns the first occurrence: the pattern matches at the
    position where the match starts and at no position before it. *)
Lemma search_from_leftmost r : forall s before m,
    search_from r before s = Some m ->
    exists sk s',
      s = sk ++ s' /\ m_pre m = rev before ++ sk
      /\ quiet r before sk s' = true
      /\ match_here r (hd_error (rev sk ++ before)) s'
         = Some (m_groups m, m_post m).
Proof.
  induction s as [|c s IH]; intros before m H; simpl in H.
  - destruct (match_here r (hd_error before) []) as [[cs rest]|] eqn:E;
      [|discriminate].
    inversion H; subst. exists [], []. simpl. rewrite app_nil_r. auto.
  - destruct (match_here r (hd_error before) (c :: s)) as [[cs rest]|] eqn:E.
    + inversion H; subst. exists [], (c :: s). simpl. rewrite app_nil_r. auto.
    + apply IH in H. destruct H as (sk & s' & -> & Hpre & Hq & Hm).
      exists (c :: sk), s'. simpl in *. rewrite E.
      rewrite <- !app_assoc in *. auto.
Qed.

Lemma search_leftmost G t m :
  qlast G = true ->
  search (field_pattern G) t = Some m ->
  exists g1 v g2,
    m = RMatch (m_pre m) [(2%nat, g2); (1%nat, g1)] (m_post m)
    /\ t = m_pre m ++ g1 ++ v ++ g2 ++ m_post m
    /\ quiet (field_pattern G) [] (m_pre m) (g1 ++ v ++ g2 ++ m_post m) = true.
Proof.
  intros HG Hm.
  destruct (@search_split G t m HG Hm) as (g1 & v & ws & Hcs & Hset & _).
  exists (g1 ++ [QUOTE]), v, (QUOTE :: ws).
  unfold set_value in Hset. rewrite Hcs in Hset. simpl group in Hset.
  split; [destruct m; simpl in *; now rewrite Hcs|].
  split; [exact Hset|].
  apply search_from_leftmost in Hm.
  destruct Hm as (sk & s' & Ht & Hpre & Hq & _). simpl in Hpre. subst sk.
  rewrite Hset in Ht. apply app_inv_head in Ht. now rewrite Ht.
Qed.

(** The first match of a field pattern before and after the value of the
    first match of a field pattern is set: the same groups, at the same
    place counted from the start or from the end of the text. *)
Lemma replace_corresponds G G' t m h m1 :
  qlast G = true -> qlast G' = true -> valstr h ->
  search (field_pattern G) t = Some m ->
  search (field_pattern G') (set_value m h) = Some m1 ->
  exists m0,
    search (field_pattern G') t = Some m0
    /\ m_groups m0 = m_groups m1
    /\ (m_pre m0 = m_pre m1 \/ m_post m0 = m_post m1).
Proof.
  intros HG HG' Hh Hm Hm1.
  destruct (@search_split _ _ _ HG Hm) as (g1 & val & ws & Hcs & Ht & Hval & _).
  rewrite (@set_value_frame _ _ _ val Hcs) in Ht.
  rewrite (@set_value_frame _ _ _ h Hcs) in Hm1.
  pose proof (@search_quoted (ws ++ m_post m) val h Hval Hh G' HG'
                (m_pre m ++ g1)) as HS.
  rewrite <- Ht, Hm1 in HS.
  destruct (search (field_pattern G') t) as [m0|]; [|contradiction].
  exists m0. split; [reflexivity|]. simpl in HS.
  destruct HS as [Hcs' [(Hp & Hq & _)|[(Hp & _)|(Hq & _)]]]; auto.
Qed.

(** C6: one replacement for each pattern.  [update_pubspec] replaces the
    value [v] of the first match of the root pattern, and then the value
    [x] of the first match of the nested pattern; no earlier position
    matches ([quiet]).  The text before each match, both groups
    (indentation, key and quotes) and all the text after each match, with
    every later occurrence, stay as they were.  The nested match is the
    first nested occurrence of the original manifest, found with the same
    groups. *)
Theorem update_pubspec_first_occurrences_only h w c w' :
  HexColorString h = true ->
  update_pubspec h w = (Return c, w') ->
  exists pre g1 v g2 post pre' k1 x k2 post' pre0 post0,
    search pattern_root (pubspec w)
    = Some (RMatch pre [(2%nat, g2); (1%nat, g1)] post)
    /\ pubspec w = pre ++ g1 ++ v ++ g2 ++ post
    /\ quiet pattern_root [] pre (g1 ++ v ++ g2 ++ post) = true
    /\ search pattern_android12 (pre ++ g1 ++ h ++ g2 ++ post)
       = Some (RMatch pre' [(2%nat, k2); (1%nat, k1)] post')
    /\ pre ++ g1 ++ h ++ g2 ++ post = pre' ++ k1 ++ x ++ k2 ++ post'
    /\ quiet pattern_android12 [] pre' (k1 ++ x ++ k2 ++ post') = true
    /\ pubspec w' = pre' ++ k1 ++ h ++ k2 ++ post'
    /\ search pattern_android12 (pubspec w)
       = Some (RMatch pre0 [(2%nat, k2); (1%nat, k1)] post0)
    /\ (pre0 = pre' \/ post0 = post')
    /\ app_config w' = app_config w /\ stdout w' = stdout w.
Proof.
  intros Hh H. apply hex_color_valstr in Hh.
  destruct (@update_pubspec_return _ _ _ _ H)
    as (mr & v0 & ma & x0 & Er & _ & _ & Ea & _ & _ & Hc & Hw).
  destruct (@replace_corresponds color_open android12_open _ mr h ma
              color_open_qlast android12_open_qlast Hh Er Ea)
    as (ma0 & E0 & Hg & Hpp).
  destruct (@search_leftmost color_open _ mr color_open_qlast Er)
    as (g1 & v & g2 & Hmr & Ht & Hq).
  destruct (@search_leftmost android12_open _ ma android12_open_qlast Ea)
    as (k1 & x & k2 & Hma & Ht1 & Hq1).
  assert (Hsr : forall y, set_value mr y = m_pre mr ++ g1 ++ y ++ g2 ++ m_post mr)
    by (intros y; rewrite Hmr; reflexivity).
  assert (Hsa : forall y, set_value ma y = m_pre ma ++ k1 ++ y ++ k2 ++ m_post ma)
    by (intros y; rewrite Hma; reflexivity).
  exists (m_pre mr), g1, v, g2, (m_post mr),
         (m_pre ma), k1, x, k2, (m_post ma), (m_pre ma0), (m_post ma0).
  assert (Hma0 : ma0 = RMatch (m_pre ma0) [(2%nat, k2); (1%nat, k1)] (m_post ma0)).
  { destruct ma0; simpl in *. rewrite Hg, Hma. reflexivity. }
  assert (Hp : pubspec w' = set_value ma h).
  { destruct c; subst w'; simpl; auto.
    symmetry in Hc. now apply negb_false_iff, text_eqb_eq in Hc. }
  split. { rewrite <- Hmr. exact Er. }
  split. { exact Ht. }
  split. { exact Hq. }
  split. { rewrite <- Hsr, <- Hma. exact Ea. }
  split. { rewrite <- Hsr. exact Ht1. }
  split. { exact Hq1. }
  split. { rewrite <- Hsa. exact Hp. }
  split. { rewrite <- Hma0. exact E0. }
  split. { exact Hpp. }
  destruct c; subst w'; auto.
Qed.

(** The manifest of the usual layout followed by a third colour line: the
    line stays as it is. *)
Lemma update_pubspec_first_occurrences_only_witness :
  exists pre g1 v g2 post pre' k1 x k2 post' pre0 post0,
    search pattern_root (manifest_three_colors (str "#000000") (str "#111111"))
    = Some (RMatch pre [(2%nat, g2); (1%nat, g1)] post)
    /\ manifest_three_colors (str "#000000") (str "#111111")
       = pre ++ g1 ++ v ++ g2 ++ post
    /\ quiet pattern_root [] pre (g1 ++ v ++ g2 ++ post) = true
    /\ search pattern_android12 (pre ++ g1 ++ str "#2196F3" ++ g2 ++ post)
       = Some (RMatch pre' [(2%nat, k2); (1%nat, k1)] post')
    /\ pre ++ g1 ++ str "#2196F3" ++ g2 ++ post
       = pre' ++ k1 ++ x ++ k2 ++ post'
    /\ quiet pattern_android12 [] pre' (k1 ++ x ++ k2 ++ post') = true
    /\ manifest_three_colors (str "#2196F3") (str "#2196F3")
       = pre' ++ k1 ++ str "#2196F3" ++ k2 ++ post'
    /\ search pattern_android12
         (manifest_three_colors (str "#000000") (str "#111111"))
       = Some (RMatch pre0 [(2%nat, k2); (1%nat, k1)] post0)
    /\ (pre0 = pre' \/ post0 = post')
    /\ @nil char = [] /\ @nil text = [].
Proof.
  apply (@update_pubspec_first_occurrences_only (str "#2196F3")
           (World [] (manifest_three_colors (str "#000000") (str "#111111")) [])
           true
           (World [] (manifest_three_colors (str "#2196F3") (str "#2196F3")) [])).
  - reflexivity.
  - vm_compute. reflexivity.
Defined.

(** * Further properties of the script *)

(** Where the theme pattern matches, a declaration stands. *)
Lemma match_here_theme_sound prev s cs rest :
  match_here pattern_theme prev s = Some (cs, rest) ->
  exists ws1 ws2 D,
    s = declaration ws1 ws2 D ++ rest /\ cs = [(1%nat, D)]
    /\ all is_space ws1 /\ all is_space ws2
    /\ length D = 6%nat /\ all is_hex D.
Proof.
  intros H. unfold match_here in H. apply run_sound in H.
  destruct H as (w & rest' & cs' & -> & Hden & HK).
  inversion HK; subst cs' rest'. clear HK.
  cbv [pattern_theme str lit List.map list_ascii_of_string] in Hden.
  simpl den in Hden.
  repeat match goal with
         | H : exists _, _ |- _ => destruct H
         | H : _ /\ _ |- _ => destruct H
         end.
  subst.
  match goal with
  | H1 : all is_space ?a, H2 : all is_space ?b, H3 : all is_hex ?d |- _ =>
      exists a, b, d;
      solve [repeat split; auto; unfold declaration; app_eq]
  end.
Qed.

Lemma extract_theme_hex_frame w u h :
  app_config u = app_config w ->
  extract_theme_hex w = (Return h, w) ->
  extract_theme_hex u = (Return h, u).
Proof.
  intros Hu. rewrite !extract_theme_hex_unfold, Hu.
  destruct (search pattern_theme (app_config w)); [|discriminate].
  intros H. inversion H. reflexivity.
Qed.

(** X1: whatever [extract_theme_hex] returns comes from the text: the file
    holds, as the first match, a declaration [themePrimaryColorValue],
    white space, [=], white space, [0xFF] and six hexadecimal digits [D];
    the result is [#] and [upper D], a hash sign and six upper-case digits;
    the world is left as it was. *)
Theorem extract_theme_hex_returns_first_declaration w r w' :
  extract_theme_hex w = (Return r, w') ->
  w' = w /\ HexColorString r = true
  /\ exists pre ws1 ws2 D post,
      app_config w = pre ++ declaration ws1 ws2 D ++ post
      /\ all is_space ws1 /\ all is_space ws2
      /\ length D = 6%nat /\ all is_hex D
      /\ quiet pattern_theme [] pre (declaration ws1 ws2 D ++ post) = true
      /\ r = str "#" ++ upper D.
Proof.
  rewrite extract_theme_hex_unfold.
  destruct (search pattern_theme (app_config w)) as [m|] eqn:E; [|discriminate].
  intros H. inversion H; subst. clear H. split; [reflexivity|].
  apply search_from_leftmost in E.
  destruct E as (sk & s' & Ht & Hpre & Hq & Hm). rewrite app_nil_r in Hm.
  apply match_here_theme_sound in Hm.
  destruct Hm as (ws1 & ws2 & D & -> & Hcs & H1 & H2 & HD & Hhex).
  rewrite Hcs. simpl group. split; [now apply hex_color_of_digits|].
  exists sk, ws1, ws2, D, (m_post m). repeat split; auto.
Qed.

Lemma extract_theme_hex_returns_first_declaration_witness :
  let w := World (str "a = 1; themePrimaryColorValue=0xFF0a0B0c;") [] [] in
  w = w /\ HexColorString (str "#0A0B0C") = true
  /\ exists pre ws1 ws2 D post,
      app_config w = pre ++ declaration ws1 ws2 D ++ post
      /\ all is_space ws1 /\ all is_space ws2
      /\ length D = 6%nat /\ all is_hex D
      /\ quiet pattern_theme [] pre (declaration ws1 ws2 D ++ post) = true
      /\ str "#0A0B0C" = str "#" ++ upper D.
Proof.
  apply (@extract_theme_hex_returns_first_declaration
           (World (str "a = 1; themePrimaryColorValue=0xFF0a0B0c;") [] [])
           (str "#0A0B0C")
           (World (str "a = 1; themePrimaryColorValue=0xFF0a0B0c;") [] [])).
  vm_compute. reflexivity.
Defined.

(** X2: [extract_theme_hex] exits only with its own message, leaves the
    world as it was, and does so only when the text holds no declaration at
    all: no [themePrimaryColorValue], white space, [=], white space, [0xFF]
    and six hexadecimal digits, anywhere. *)
Theorem extract_theme_hex_exit_no_declaration w msg w' :
  extract_theme_hex w = (SystemExit msg, w') ->
  msg = msg_theme /\ w' = w
  /\ forall pre ws1 ws2 D post,
      forallb is_space ws1 = true -> forallb is_space ws2 = true ->
      length D = 6%nat -> forallb is_hex D = true ->
      app_config w <> pre ++ declaration ws1 ws2 D ++ post.
Proof.
  rewrite extract_theme_hex_unfold.
  destruct (search pattern_theme (app_config w)) as [m|] eqn:E; [discriminate|].
  intros H. inversion H; subst. clear H. repeat split.
  intros pre ws1 ws2 D post H1 H2 HD Hhex Ht.
  apply forallb_all in H1, H2, Hhex.
  destruct (@search_from_complete pattern_theme pre []
              (declaration ws1 ws2 D ++ post) ([(1%nat, D)], post))
    as (m & Hm).
  { rewrite app_nil_r. now apply match_here_theme. }
  unfold search in E. rewrite Ht, Hm in E. discriminate.
Qed.

Lemma extract_theme_hex_exit_no_declaration_witness :
  let w := World (str "themePrimaryColorValue = 0xFF21;") [] [] in
  msg_theme = msg_theme /\ w = w
  /\ forall pre ws1 ws2 D post,
      forallb is_space ws1 = true -> forallb is_space ws2 = true ->
      length D = 6%nat -> forallb is_hex D = true ->
      app_config w <> pre ++ declaration ws1 ws2 D ++ post.
Proof.
  apply (@extract_theme_hex_exit_no_declaration
           (World (str "themePrimaryColorValue = 0xFF21;") [] [])
           msg_theme
           (World (str "themePrimaryColorValue = 0xFF21;") [] [])).
  vm_compute. reflexivity.
Defined.

Lemma update_pubspec_exit h w msg w' :
  valstr h ->
  update_pubspec h w = (SystemExit msg, w') ->
  msg = msg_pubspec /\ w' = w
  /\ (search pattern_root (pubspec w) = None
      \/ search pattern_android12 (pubspec w) = None).
Proof.
  intros Hh. rewrite update_pubspec_unfold.
  destruct (search pattern_root (pubspec w)) as [mr|] eqn:Er.
  - destruct (search pattern_android12 (set_value mr h)) as [ma|] eqn:Ea.
    + destruct (text_eqb _ _); discriminate.
    + intros H. inversion H; subst. repeat split. right.
      apply (@replace_none_inv color_open android12_open _ mr h
               color_open_qlast android12_open_qlast Hh Er Ea).
  - intros H. inversion H; subst. auto.
Qed.

(** X3: [main] exits for two reasons only, and then nothing was written
    and nothing was printed.  With the message of [extract_theme_hex] the
    declaration was not found, whatever the manifest holds; with the message
    of [update_pubspec] the declaration was found and the root pattern or the
    nested pattern matches nowhere in the manifest. *)
Theorem main_exit_reasons w msg w' :
  main w = (SystemExit msg, w') ->
  w' = w
  /\ ((msg = msg_theme /\ search pattern_theme (app_config w) = None)
      \/ (msg = msg_pubspec
          /\ search pattern_theme (app_config w) <> None
          /\ (search pattern_root (pubspec w) = None
              \/ search pattern_android12 (pubspec w) = None))).
Proof.
  rewrite main_unfold.
  destruct (extract_theme_hex w) as [[h|m1] w1] eqn:Ee.
  - destruct (@extract_theme_hex_return _ _ _ Ee) as [-> Hh].
    apply hex_color_valstr in Hh.
    destruct (update_pubspec h w) as [[c|m2] w2] eqn:Eu; [discriminate|].
    intros H. inversion H; subst. clear H.
    destruct (@update_pubspec_exit _ _ _ _ Hh Eu) as (-> & -> & Hor).
    split; [reflexivity|]. right. repeat split; auto.
    rewrite extract_theme_hex_unfold in Ee.
    destruct (search pattern_theme (app_config w)); discriminate.
  - intros H. inversion H; subst. clear H.
    rewrite extract_theme_hex_unfold in Ee.
    destruct (search pattern_theme (app_config w)) eqn:E; [discriminate|].
    inversion Ee; subst. auto.
Qed.

Lemma main_exit_reasons_witness :
  let w := World (str "themePrimaryColorValue = 0xFF2196F3") manifest_root_only
             [str "earlier output"] in
  w = w
  /\ ((msg_pubspec = msg_theme /\ search pattern_theme (app_config w) = None)
      \/ (msg_pubspec = msg_pubspec
          /\ search pattern_theme (app_config w) <> None
          /\ (search pattern_root (pubspec w) = None
              \/ search pattern_android12 (pubspec w) = None))).
Proof.
  apply (@main_exit_reasons
           (World (str "themePrimaryColorValue = 0xFF2196F3")
              manifest_root_only [str "earlier output"])
           msg_pubspec
           (World (str "themePrimaryColorValue = 0xFF2196F3")
              manifest_root_only [str "earlier output"])).
  vm_compute. reflexivity.
Defined.

(** X4: when [main] returns, it printed exactly one line, with the colour
    that [extract_theme_hex] returned; the line says [updated] exactly when
    the manifest text changed and [already in sync] exactly when it did
    not; the declaration file is as it was. *)
Theorem main_reports_what_it_did w u w' :
  main w = (Return u, w') ->
  app_config w' = app_config w
  /\ exists h,
      extract_theme_hex w = (Return h, w)
      /\ ((pubspec w' <> pubspec w
           /\ stdout w' = stdout w ++ [str "Splash color updated: " ++ h])
          \/ (pubspec w' = pubspec w
              /\ stdout w'
                 = stdout w ++ [str "Splash color already in sync: " ++ h])).
Proof.
  rewrite main_unfold.
  destruct (extract_theme_hex w) as [[h|m1] w1] eqn:Ee; [|discriminate].
  destruct (@extract_theme_hex_return _ _ _ Ee) as [-> Hh].
  apply hex_color_valstr in Hh.
  destruct (update_pubspec h w) as [[c|m2] w2] eqn:Eu; [|discriminate].
  intros H. inversion H; subst. clear H. simpl.
  destruct (@update_pubspec_return_synced _ _ _ _ Hh Eu)
    as (_ & Ha & Hs & Ht & Hf).
  split; [assumption|]. exists h. split; [reflexivity|].
  destruct c.
  - left. split; [now apply Ht|]. rewrite Hs. reflexivity.
  - right. rewrite (Hf eq_refl). split; reflexivity.
Qed.

Lemma main_reports_what_it_did_witness :
  let w := World (str "themePrimaryColorValue = 0xFF2196F3")
             (manifest_standard (str "#2196F3") (str "#000000")) [] in
  let w' := World (str "themePrimaryColorValue = 0xFF2196F3")
              (manifest_standard (str "#2196F3") (str "#2196F3"))
              [str "Splash color updated: #2196F3"] in
  app_config w' = app_config w
  /\ exists h,
      extract_theme_hex w = (Return h, w)
      /\ ((pubspec w' <> pubspec w
           /\ stdout w' = stdout w ++ [str "Splash color updated: " ++ h])
          \/ (pubspec w' = pubspec w
              /\ stdout w'
                 = stdout w ++ [str "Splash color already in sync: " ++ h])).
Proof.
  apply (@main_reports_what_it_did
           (World (str "themePrimaryColorValue = 0xFF2196F3")
              (manifest_standard (str "#2196F3") (str "#000000")) [])
           tt
           (World (str "themePrimaryColorValue = 0xFF2196F3")
              (manifest_standard (str "#2196F3") (str "#2196F3"))
              [str "Splash color updated: #2196F3"])).
  vm_compute. reflexivity.
Defined.

(** X5: when [main] returns, the manifest is in sync with the declaration:
    the first match of the root pattern and the first match of the nested
    pattern both hold the colour that [extract_theme_hex] returns for the
    declaration file. *)
Theorem main_leaves_manifest_in_sync w u w' :
  main w = (Return u, w') ->
  exists h,
    extract_theme_hex w' = (Return h, w') /\ HexColorString h = true
    /\ synced h (pubspec w').
Proof.
  rewrite main_unfold.
  destruct (extract_theme_hex w) as [[h|m1] w1] eqn:Ee; [|discriminate].
  destruct (@extract_theme_hex_return _ _ _ Ee) as [-> Hh].
  destruct (update_pubspec h w) as [[c|m2] w2] eqn:Eu; [|discriminate].
  intros H. inversion H; subst. clear H. simpl.
  destruct (@update_pubspec_return_synced _ _ _ _ (hex_color_valstr _ Hh) Eu)
    as (Hsy & Ha & _).
  exists h. split; [|split; assumption].
  apply (@extract_theme_hex_frame w); [exact Ha|exact Ee].
Qed.

Lemma main_leaves_manifest_in_sync_witness :
  let w' := World (str "themePrimaryColorValue = 0xFF2196F3")
              (manifest_nested_first (str "#222222") (str "#2196F3"))
              [str "Splash color updated: #2196F3"] in
  exists h,
    extract_theme_hex w' = (Return h, w') /\ HexColorString h = true
    /\ synced h (pubspec w').
Proof.
  apply (@main_leaves_manifest_in_sync
           (World (str "themePrimaryColorValue = 0xFF2196F3")
              (manifest_nested_first (str "#222222") (str "#111111")) [])
           tt).
  vm_compute. reflexivity.
Defined.

(** X6: [main] is idempotent: after a run that returned, a second run
    returns too, writes no file and prints the one line
    [Splash color already in sync:] with the same colour. *)
Theorem main_twice w u w1 :
  main w = (Return u, w1) ->
  exists h,
    extract_theme_hex w = (Return h, w)
    /\ main w1
       = (Return tt,
          World (app_config w1) (pubspec w1)
            (stdout w1 ++ [str "Splash color already in sync: " ++ h])).
Proof.
  rewrite main_unfold.
  destruct (extract_theme_hex w) as [[h|m1] w0] eqn:Ee; [|discriminate].
  destruct (@extract_theme_hex_return _ _ _ Ee) as [-> Hh].
  destruct (update_pubspec h w) as [[c|m2] w2] eqn:Eu; [|discriminate].
  intros H. inversion H; subst. clear H.
  destruct (@update_pubspec_return_synced _ _ _ _ (hex_color_valstr _ Hh) Eu)
    as (Hsy & Ha & _).
  exists h. split; [reflexivity|].
  set (w1 := World (app_config w2) (pubspec w2) _).
  rewrite main_unfold.
  rewrite (@extract_theme_hex_frame w w1 h Ha Ee).
  rewrite (@update_pubspec_synced h w1 Hsy). reflexivity.
Qed.

Lemma main_twice_witness :
  let w := World (str "themePrimaryColorValue = 0xFF2196F3")
             (manifest_three_colors (str "#000000") (str "#111111")) [] in
  let w1 := World (str "themePrimaryColorValue = 0xFF2196F3")
              (manifest_three_colors (str "#2196F3") (str "#2196F3"))
              [str "Splash color updated: #2196F3"] in
  exists h,
    extract_theme_hex w = (Return h, w)
    /\ main w1
       = (Return tt,
          World (app_config w1) (pubspec w1)
            (stdout w1 ++ [str "Splash color already in sync: " ++ h])).
Proof.
  apply (@main_twice
           (World (str "themePrimaryColorValue = 0xFF2196F3")
              (manifest_three_colors (str "#000000") (str "#111111")) [])
           tt).
  vm_compute. reflexivity.
Defined.

(** X7: [update_pubspec] returns [False] exactly when the manifest is in
    sync already, and [True] as soon as one of the two first matches holds
    another value. *)
Theorem update_pubspec_false_iff_synced h w c w' :
  HexColorString h = true ->
  update_pubspec h w = (Return c, w') ->
  (c = false <-> synced h (pubspec w)).
Proof.
  intros Hh H. apply hex_color_valstr in Hh.
  destruct (@update_pubspec_return_synced _ _ _ _ Hh H)
    as (Hsy & _ & _ & _ & Hf).
  split.
  - intros Hc. rewrite (Hf Hc) in Hsy. exact Hsy.
  - intros Hs. rewrite (@update_pubspec_synced h w Hs) in H.
    inversion H. reflexivity.
Qed.

Lemma update_pubspec_false_iff_synced_witness :
  true = false
  <-> synced (str "#2196F3")
        (manifest_standard (str "#2196F3") (str "#2196f3")).
Proof.
  apply (@update_pubspec_false_iff_synced (str "#2196F3")
           (World [] (manifest_standard (str "#2196F3") (str "#2196f3")) [])
           true
           (World [] (manifest_standard (str "#2196F3") (str "#2196F3")) [])).
  - reflexivity.
  - vm_compute. reflexivity.
Defined.

Lemma count_occ_valstr v ch :
  all is_val v -> is_val ch = false -> count_occ N.eq_dec v ch = 0%nat.
Proof.
  intros Hv Hch. apply count_occ_not_In. intros Hin.
  unfold all in Hv. rewrite Forall_forall in Hv.
  specialize (Hv ch Hin). congruence.
Qed.

Lemma count_occ_set_value m x y ch :
  valstr x -> valstr y -> is_val ch = false ->
  count_occ N.eq_dec (set_value m x) ch = count_occ N.eq_dec (set_value m y) ch.
Proof.
  intros [_ Hx] [_ Hy] Hch. unfold set_value.
  rewrite !count_occ_app.
  pose proof (@count_occ_valstr x ch Hx Hch) as Ex.
  pose proof (@count_occ_valstr y ch Hy Hch) as Ey.
  change (@count_occ N) with (@count_occ char) in *. lia.
Qed.

(** X8: [update_pubspec] adds and removes characters of the class
    [#0-9A-Fa-f] only: every other character (a line break, a double quote,
    a colon, a space) occurs in the resulting manifest as often as before,
    so the manifest keeps its number of lines. *)
Theorem update_pubspec_keeps_other_characters h w c w' ch :
  HexColorString h = true ->
  update_pubspec h w = (Return c, w') ->
  is_val ch = false ->
  count_occ N.eq_dec (pubspec w') ch = count_occ N.eq_dec (pubspec w) ch.
Proof.
  intros Hh H Hch. apply hex_color_valstr in Hh.
  destruct (@update_pubspec_return _ _ _ _ H)
    as (mr & v & ma & x & _ & Hv & Hvs & _ & Hx & Hxs & Hc & Hw).
  assert (Hp : pubspec w' = set_value ma h).
  { destruct c; subst w'; simpl; auto.
    symmetry in Hc. now apply negb_false_iff, text_eqb_eq in Hc. }
  rewrite Hp, Hv.
  rewrite (@count_occ_set_value ma h x ch Hh Hxs Hch), <- Hx.
  apply count_occ_set_value; assumption.
Qed.

Lemma update_pubspec_keeps_other_characters_witness :
  count_occ N.eq_dec (manifest_standard (str "#2196F3") (str "#2196F3")) NL
  = count_occ N.eq_dec (manifest_standard (str "#fff") (str "#00000000")) NL.
Proof.
  apply (@update_pubspec_keeps_other_characters (str "#2196F3")
           (World [] (manifest_standard (str "#fff") (str "#00000000")) [])
           true
           (World [] (manifest_standard (str "#2196F3") (str "#2196F3")) [])
           NL).
  - reflexivity.
  - vm_compute. reflexivity.
  - reflexivity.
Defined.

(** Where the nested pattern matches: the [android_12:] key, white space
    with a line break, and a colour line. *)
Lemma match_here_android12_sound prev s cs rest :
  match_here pattern_android12 prev s = Some (cs, rest) ->
  exists w1 w2 w3 w4 val ws,
    s = w1 ++ str "android_12:" ++ w2 ++ NL :: w3 ++ str "color:" ++ w4
          ++ QUOTE :: val ++ QUOTE :: ws ++ rest
    /\ all is_space w1 /\ all is_space w2 /\ all is_space w3
    /\ all is_space w4 /\ all is_space ws
    /\ valstr val /\ at_bol prev = true /\ at_eol rest = true.
Proof.
  intros H. unfold match_here in H. apply run_sound in H.
  destruct H as (w & rest' & cs' & -> & Hden & HK).
  inversion HK; subst cs' rest'. clear HK.
  cbv [pattern_android12 color_open group_close str lit List.map
         list_ascii_of_string] in Hden.
  simpl den in Hden.
  repeat match goal with
         | H : exists _, _ |- _ => destruct H
         | H : _ /\ _ |- _ => destruct H
         end.
  subst.
  match goal with
  | H1 : all is_space ?a, H2 : all is_space ?b, H3 : all is_space ?c,
    H4 : all is_space ?d, H5 : all is_space ?e, H6 : all is_val ?v |- _ =>
      exists a, b, c, d, v, e;
      solve [repeat split; auto; app_eq]
  end.
Qed.

(** The colour line of a nested match is a match of the root pattern. *)
Lemma android12_match_root_match t m :
  search pattern_android12 t = Some m ->
  exists m', search pattern_root t = Some m'.
Proof.
  intros H. apply search_from_sound in H.
  destruct H as (sk & s' & -> & _ & Hm).
  apply match_here_android12_sound in Hm.
  destruct Hm as (w1 & w2 & w3 & w4 & val & ws & -> & _ & _ & H3 & H4 & Hws
                  & Hval & _ & Heol).
  destruct (@match_here_reads color_open (Some NL) (w3 ++ str "color:" ++ w4)
              val (ws ++ m_post m)
              (reads_color_open _ H3 H4) eq_refl Hval)
    as (g2 & post & Hr & _).
  { exists ws, (m_post m). auto. }
  replace (sk ++ w1 ++ str "android_12:" ++ w2 ++ NL :: w3 ++ str "color:"
             ++ w4 ++ QUOTE :: val ++ QUOTE :: ws ++ m_post m)
    with ((sk ++ w1 ++ str "android_12:" ++ w2 ++ [NL])
            ++ (w3 ++ str "color:" ++ w4) ++ QUOTE :: val
            ++ QUOTE :: ws ++ m_post m) by app_eq.
  apply (@search_from_complete pattern_root _ [] _
           ([(2%nat, g2); (1%nat, (w3 ++ str "color:" ++ w4) ++ [QUOTE])], post)).
  rewrite app_nil_r.
  replace (sk ++ w1 ++ str "android_12:" ++ w2 ++ [NL])
    with ((sk ++ w1 ++ str "android_12:" ++ w2) ++ [NL]) by app_eq.
  rewrite rev_app_distr. exact Hr.
Qed.

(** X9: [update_pubspec] exits exactly when the nested pattern matches
    nowhere in the manifest: the colour line of a nested match is a match of
    the root pattern too, so the root pattern alone is never the one that
    is missing. *)
Theorem update_pubspec_exit_iff_no_nested_match h w :
  HexColorString h = true ->
  (search pattern_android12 (pubspec w) = None
   <-> update_pubspec h w = (SystemExit msg_pubspec, w))
  /\ (search pattern_root (pubspec w) = None ->
      search pattern_android12 (pubspec w) = None).
Proof.
  intros Hh. apply hex_color_valstr in Hh.
  assert (Hroot : search pattern_root (pubspec w) = None ->
                  search pattern_android12 (pubspec w) = None).
  { intros Hr.
    destruct (search pattern_android12 (pubspec w)) as [m|] eqn:E;
      [|reflexivity].
    destruct (android12_match_root_match _ E) as (m' & Hm'). congruence. }
  split; [|exact Hroot]. split.
  - intros Ha. rewrite update_pubspec_unfold.
    destruct (search pattern_root (pubspec w)) as [mr|] eqn:Er; [|reflexivity].
    pose proof (@replace_none color_open android12_open _ _ _
                  color_open_qlast android12_open_qlast Hh Er Ha) as Hn.
    change (field_pattern android12_open) with pattern_android12 in Hn.
    now rewrite Hn.
  - intros He.
    destruct (@update_pubspec_exit _ _ _ _ Hh He) as (_ & _ & [Hr|Ha]); auto.
Qed.

Lemma update_pubspec_exit_iff_no_nested_match_witness :
  (search pattern_android12 manifest_root_only = None
   <-> update_pubspec (str "#2196F3") (World [] manifest_root_only [])
       = (SystemExit msg_pubspec, World [] manifest_root_only []))
  /\ (search pattern_root manifest_root_only = None ->
      search pattern_android12 manifest_root_only = None).
Proof.
  exact (@update_pubspec_exit_iff_no_nested_match (str "#2196F3")
           (World [] manifest_root_only []) eq_refl).
Defined.

(** X10: the root pattern accepts any white space, line breaks included,
    before [color:], between the colon and the opening quote, and after the
    closing quote up to the end of a line; the substitution of a colour that
    [main] passes (a hash sign and six upper-case digits) replaces the value
    and keeps all of that white space. *)
Theorem root_pattern_accepts_any_white_space ws0 ws1 ws2 v rest h :
  HexColorString h = true ->
  forallb is_space ws0 = true -> forallb is_space ws1 = true ->
  forallb is_space ws2 = true -> valstrb v = true -> at_eol rest = true ->
  subn1 pattern_root h
    (ws0 ++ str "color:" ++ ws1 ++ QUOTE :: v ++ QUOTE :: ws2 ++ rest)
  = (ws0 ++ str "color:" ++ ws1 ++ QUOTE :: h ++ QUOTE :: ws2 ++ rest, 1%nat).
Proof.
  intros _ H0 H1 H2 Hv Heol.
  apply forallb_all in H0, H1, H2. apply valstrb_true in Hv.
  destruct (@match_here_reads color_open None (ws0 ++ str "color:" ++ ws1)
              v (ws2 ++ rest) (reads_color_open _ H0 H1) eq_refl Hv)
    as (g2 & post & Hm & Hg2).
  { exists ws2, rest. auto. }
  assert (Hs : search pattern_root
                 (ws0 ++ str "color:" ++ ws1 ++ QUOTE :: v
                    ++ QUOTE :: ws2 ++ rest)
               = Some (RMatch []
                         [(2%nat, g2);
                          (1%nat, (ws0 ++ str "color:" ++ ws1) ++ [QUOTE])]
                         post)).
  { replace (ws0 ++ str "color:" ++ ws1 ++ QUOTE :: v ++ QUOTE :: ws2 ++ rest)
      with ((ws0 ++ str "color:" ++ ws1) ++ QUOTE :: v ++ QUOTE :: ws2 ++ rest)
      by app_eq.
    apply (@search_from_here pattern_root []). exact Hm. }
  rewrite (@subn1_some _ h _ _ Hs). unfold set_value.
  cbn [m_pre m_groups m_post group Nat.eqb]. rewrite Hg2.
  f_equal. app_eq.
Qed.

Lemma root_pattern_accepts_any_white_space_witness :
  subn1 pattern_root (str "#2196F3")
    ([NL; 9] ++ str "color:" ++ [NL; 32] ++ QUOTE :: str "#fff"
       ++ QUOTE :: [32; 9] ++ [NL; 120])
  = ([NL; 9] ++ str "color:" ++ [NL; 32] ++ QUOTE :: str "#2196F3"
       ++ QUOTE :: [32; 9] ++ [NL; 120], 1%nat).
Proof.
  apply (@root_pattern_accepts_any_white_space [NL; 9] [NL; 32] [32; 9]
           (str "#fff") [NL; 120] (str "#2196F3")); reflexivity.
Defined.

(** In a text with one quoted string only, what follows a match's value is
    white space up to the end of a line. *)
Lemma search_single_quoted_tail G t m A v C :
  qlast G = true ->
  search (field_pattern G) t = Some m ->
  t = A ++ QUOTE :: v ++ QUOTE :: C ->
  ~ In QUOTE A -> ~ In QUOTE v -> ~ In QUOTE C ->
  exists ws, C = ws ++ m_post m /\ all is_space ws /\ at_eol (m_post m) = true.
Proof.
  intros HG Hm Ht HA Hv HC. pose proof Hm as Hs.
  apply search_from_sound in Hs. destruct Hs as (sk & s' & Hsk & Hpre & Hmh).
  simpl in Hpre.
  destruct (@match_here_split G _ _ _ _ HG Hmh)
    as (g1 & val & ws & Hcs & Hs' & Hval & Hws & _ & Heol).
  exists ws. split; [|split; assumption].
  assert (Hfr : t = (sk ++ g1) ++ QUOTE :: val ++ QUOTE :: (ws ++ m_post m)).
  { rewrite Hsk, Hs'. app_eq. }
  assert (Hq : quotes t = 2%nat).
  { rewrite Ht, quotes_app, quotes_cons_quote, quotes_app, quotes_cons_quote.
    apply quotes_zero in HA, Hv, HC. lia. }
  rewrite Hfr in Hq.
  rewrite !quotes_app, !quotes_cons_quote, !quotes_app, !quotes_cons_quote in Hq.
  assert (H1 : ~ In QUOTE (sk ++ g1))
    by (apply quotes_zero; rewrite quotes_app; lia).
  assert (H2 : ~ In QUOTE val) by (apply quotes_zero; lia).
  rewrite Ht in Hfr.
  destruct (split_first_quote _ _ _ _ HA H1 Hfr) as [_ Hrest].
  destruct (split_first_quote _ _ _ _ Hv H2 Hrest) as [_ HCeq].
  exact HCeq.
Qed.

(** White space up to the end of a line cannot pass a character that is no
    white space. *)
Lemma space_to_eol_blocked : forall ws2 ws post c rest,
    ws ++ post = ws2 ++ c :: rest ->
    all is_space ws -> at_eol post = true ->
    all is_space ws2 -> ~ In NL ws2 -> is_space c = false -> False.
Proof.
  induction ws2 as [|y ws2 IH]; intros ws post c rest H Hws Heol H2 Hnl Hc;
    simpl in H.
  - destruct ws as [|x ws]; simpl in H.
    + subst post. simpl in Heol. apply N.eqb_eq in Heol. subst c.
      discriminate.
    + inversion H; subst. inversion Hws; subst. congruence.
  - destruct ws as [|x ws]; simpl in H.
    + subst post. simpl in Heol. apply N.eqb_eq in Heol. subst y.
      apply Hnl. now left.
    + inversion H; subst. inversion Hws; subst. inversion H2; subst.
      apply (IH ws post c rest); auto. intros Hin. apply Hnl. now right.
Qed.

(** X11: a colour line whose closing quote is followed, on the same line,
    by anything but white space (a comment, say) is not recognised: in a
    manifest whose only quoted string is followed that way, the root pattern
    matches nowhere and [update_pubspec] exits. *)
Theorem root_pattern_needs_end_of_line h w A v ws2 c rest :
  HexColorString h = true ->
  pubspec w = A ++ QUOTE :: v ++ QUOTE :: ws2 ++ c :: rest ->
  has_quote A = false -> has_quote v = false ->
  has_quote (ws2 ++ c :: rest) = false ->
  forallb is_space ws2 = true -> existsb (N.eqb NL) ws2 = false ->
  is_space c = false ->
  search pattern_root (pubspec w) = None
  /\ update_pubspec h w = (SystemExit msg_pubspec, w).
Proof.
  intros Hh Hw HA Hv HC H2 Hnl Hc.
  apply has_quote_false in HA, Hv, HC. apply forallb_all in H2.
  assert (Hnone : search pattern_root (pubspec w) = None).
  { destruct (search pattern_root (pubspec w)) as [m|] eqn:E; [|reflexivity].
    exfalso.
    destruct (@search_single_quoted_tail color_open _ m A v _
                color_open_qlast E Hw HA Hv HC) as (ws & Heq & Hws & Heol).
    apply (@space_to_eol_blocked ws2 ws (m_post m) c rest); auto.
    intros Hin.
    assert (existsb (N.eqb NL) ws2 = true)
      by (apply existsb_exists; exists NL; split; [assumption|reflexivity]).
    congruence. }
  split; [exact Hnone|]. now rewrite update_pubspec_unfold, Hnone.
Qed.

Lemma root_pattern_needs_end_of_line_witness :
  let w :=
    World []
      (str "flutter_native_splash:" ++ [NL] ++ str "  color: "
         ++ QUOTE :: str "#000000" ++ QUOTE :: str " " ++ 35 :: str " dark"
         ++ [NL]) [] in
  search pattern_root (pubspec w) = None
  /\ update_pubspec (str "#2196F3") w = (SystemExit msg_pubspec, w).
Proof.
  exact (@root_pattern_needs_end_of_line (str "#2196F3")
           (World []
              (str "flutter_native_splash:" ++ [NL] ++ str "  color: "
                 ++ QUOTE :: str "#000000" ++ QUOTE :: str " " ++ 35 :: str " dark"
                 ++ [NL]) [])
           (str "flutter_native_splash:" ++ [NL] ++ str "  color: ")
           (str "#000000") (str " ") 35 (str " dark" ++ [NL])
           eq_refl eq_refl eq_refl eq_refl eq_refl eq_refl eq_refl eq_refl).
Defined.

(** The root pattern matches at no position of the [android_12] key
    line. *)
Lemma quiet_root_key_line : forall j before a X,
    all is_space j -> Forall (fun c => (c =? NL) = false) a ->
    quiet pattern_root before (j ++ str "android_12:" ++ a ++ [NL]) X = true.
Proof.
  induction j as [|c j IH]; intros before a X Hj Ha.
  - change ([] ++ str "android_12:" ++ a ++ [NL])
      with (97 :: str "ndroid_12:" ++ a ++ [NL]).
    cbn [quiet app].
    match goal with
    | |- match ?o with _ => _ end = _ =>
        assert (H0 : o = None)
          by (apply (@root_not_here _ [] 97); (constructor || reflexivity));
        rewrite H0
    end.
    rewrite app_assoc.
    apply (@quiet_line_end color_open); [reflexivity|].
    apply Forall_app. split; [|assumption].
    repeat (constructor; [reflexivity|]). constructor.
  - inversion Hj; subst. cbn [quiet app].
    replace (c :: (j ++ str "android_12:" ++ a ++ [NL]) ++ X)
      with ((c :: j) ++ 97 :: str "ndroid_12:" ++ a ++ [NL] ++ X) by app_eq.
    rewrite root_not_here by (assumption || reflexivity).
    now apply IH.
Qed.

(** White space with a line break, cut at its first line break. *)
Lemma first_line_break : forall e1 k,
    all is_space e1 -> all is_space k ->
    exists a b,
      e1 ++ NL :: k = a ++ NL :: b
      /\ Forall (fun c => (c =? NL) = false) a
      /\ all is_space a /\ all is_space b.
Proof.
  induction e1 as [|c e1 IH]; intros k He1 Hk.
  - exists [], k. repeat split; auto; constructor.
  - inversion He1; subst. destruct (c =? NL) eqn:Ec.
    + apply N.eqb_eq in Ec. subst c. exists [], (e1 ++ NL :: k).
      repeat split; try constructor.
      apply Forall_app. split; [assumption|]. constructor; [reflexivity|assumption].
    + destruct (IH k H2 Hk) as (a & b & Hab & Ha & Hsa & Hsb).
      exists (c :: a), b. simpl. rewrite Hab.
      repeat split; auto; constructor; auto.
Qed.

(** In a manifest where no line before the [android_12] section matches,
    the first match of the root pattern is the colour line of the section,
    and so is the first match of the nested pattern. *)
Lemma search_root_in_section P j e1 k s x e2 T :
  all is_space j -> all is_space e1 -> all is_space k -> all is_space s ->
  all is_space e2 -> ends_line P = true -> at_eol T = true -> valstr x ->
  quiet pattern_root [] P (android12_lines j e1 k s x e2 ++ T) = true ->
  exists m,
    search pattern_root (P ++ android12_lines j e1 k s x e2 ++ T) = Some m
    /\ (forall y, set_value m y = P ++ android12_lines j e1 k s y e2 ++ T)
    /\ m_pre m ++ group 1 (m_groups m)
       = P ++ j ++ str "android_12:" ++ e1 ++ NL :: k ++ str "color:" ++ s
           ++ [QUOTE].
Proof.
  intros Hj He1 Hk Hs He2 HP HT Hx Hq.
  destruct (first_line_break He1 Hk) as (a & b & Hab & Hnl & Ha & Hb).
  set (P' := P ++ j ++ str "android_12:" ++ a ++ [NL]).
  set (g1 := b ++ str "color:" ++ s).
  assert (Hsplit : forall Z, e1 ++ NL :: k ++ Z = a ++ NL :: b ++ Z).
  { intros Z. change (e1 ++ NL :: k ++ Z) with (e1 ++ (NL :: k) ++ Z).
    change (a ++ NL :: b ++ Z) with (a ++ (NL :: b) ++ Z).
    now rewrite !app_assoc, Hab. }
  assert (Ht : forall y,
             P ++ android12_lines j e1 k s y e2 ++ T
             = P' ++ g1 ++ QUOTE :: y ++ QUOTE :: e2 ++ T).
  { intros y. unfold android12_lines, color_line, P', g1.
    rewrite <- !app_assoc. do 3 f_equal. simpl. rewrite <- !app_assoc.
    rewrite Hsplit. app_eq. }
  destruct (@search_field_here color_open P' g1 x (e2 ++ T))
    as (g2 & post & Er & Hg2).
  { apply reads_color_open; assumption. }
  { unfold ends_line, P'.
    replace (P ++ j ++ str "android_12:" ++ a ++ [NL])
      with ((P ++ j ++ str "android_12:" ++ a) ++ NL :: []) by app_eq.
    now rewrite ends_line_after. }
  { exact Hx. }
  { now apply closes_end. }
  { assert (Hrest : android12_lines j e1 k s x e2 ++ T
                    = (j ++ str "android_12:" ++ a ++ [NL])
                        ++ g1 ++ QUOTE :: x ++ QUOTE :: e2 ++ T).
    { apply (app_inv_head P). rewrite (Ht x). unfold P'. app_eq. }
    unfold P'. apply quiet_app.
    - rewrite <- Hrest. exact Hq.
    - now apply quiet_root_key_line. }
  change (field_pattern color_open) with pattern_root in Er.
  exists (RMatch P' [(2%nat, g2); (1%nat, g1 ++ [QUOTE])] post).
  split; [now rewrite Ht|]. split.
  - intros y. rewrite Ht. unfold set_value.
    cbn [m_pre m_groups m_post group Nat.eqb]. rewrite Hg2. app_eq.
  - cbn [m_pre m_groups m_post group Nat.eqb].
    transitivity (P ++ j ++ str "android_12:"
                    ++ (a ++ NL :: b ++ (str "color:" ++ s ++ [QUOTE])));
      [unfold P', g1; app_eq|].
    now rewrite <- (Hsplit (str "color:" ++ s ++ [QUOTE])).
Qed.

Lemma search_android12_in_section P j e1 k s x e2 T :
  all is_space j -> all is_space e1 -> all is_space k -> all is_space s ->
  all is_space e2 -> ends_line P = true -> at_eol T = true -> valstr x ->
  quiet pattern_android12 [] P (android12_lines j e1 k s x e2 ++ T) = true ->
  exists m,
    search pattern_android12 (P ++ android12_lines j e1 k s x e2 ++ T)
    = Some m
    /\ (forall y, set_value m y = P ++ android12_lines j e1 k s y e2 ++ T)
    /\ m_pre m ++ group 1 (m_groups m)
       = P ++ j ++ str "android_12:" ++ e1 ++ NL :: k ++ str "color:" ++ s
           ++ [QUOTE].
Proof.
  intros Hj He1 Hk Hs He2 HP HT Hx Hq.
  set (g1 := j ++ str "android_12:" ++ e1 ++ NL :: k ++ str "color:" ++ s).
  assert (Ht : forall y,
             P ++ android12_lines j e1 k s y e2 ++ T
             = P ++ g1 ++ QUOTE :: y ++ QUOTE :: e2 ++ T).
  { intros y. unfold android12_lines, color_line, g1. app_eq. }
  destruct (@search_field_here android12_open P g1 x (e2 ++ T))
    as (g2 & post & Ea & Hg2).
  { apply reads_android12_open; assumption. }
  { exact HP. }
  { exact Hx. }
  { now apply closes_end. }
  { rewrite <- Hq. f_equal. apply app_inv_head with (l := P). now rewrite <- Ht. }
  change (field_pattern android12_open) with pattern_android12 in Ea.
  exists (RMatch P [(2%nat, g2); (1%nat, g1 ++ [QUOTE])] post).
  split; [now rewrite Ht|]. split.
  - intros y. rewrite Ht. unfold set_value.
    cbn [m_pre m_groups m_post group Nat.eqb]. rewrite Hg2. app_eq.
  - cbn [m_pre m_groups m_post group Nat.eqb]. unfold g1. app_eq.
Qed.

(** X12: when the [android_12] section comes first, both patterns take its
    colour line.  In a manifest where no line before the key [android_12:]
    matches either pattern, and where the colour line that follows the key
    holds a non-empty run [x] of [#0-9A-Fa-f], [update_pubspec] returns
    without an error and rewrites that one value; everything before and
    after it stays as it was, a root-level colour line further down
    included, whatever it holds. *)
Theorem update_pubspec_nested_first h w P j e1 k s x e2 T :
  HexColorString h = true -> valstrb x = true ->
  spaces [j; e1; k; s; e2] = true ->
  ends_line P = true -> at_eol T = true ->
  pubspec w = P ++ android12_lines j e1 k s x e2 ++ T ->
  quiet pattern_root [] P (android12_lines j e1 k s x e2 ++ T) = true ->
  quiet pattern_android12 [] P (android12_lines j e1 k s x e2 ++ T) = true ->
  fst (update_pubspec h w) = Return (negb (text_eqb x h))
  /\ pubspec (snd (update_pubspec h w))
     = P ++ android12_lines j e1 k s h e2 ++ T
  /\ (x = h -> snd (update_pubspec h w) = w).
Proof.
  intros Hh Hx Hsp HP HT Hw Hqr Hqa.
  apply hex_color_valstr in Hh. apply valstrb_true in Hx.
  rewrite !spaces_cons in Hsp.
  destruct Hsp as (Hj & He1 & Hk & Hs & He2 & _).
  destruct (@search_root_in_section P j e1 k s x e2 T
              Hj He1 Hk Hs He2 HP HT Hx Hqr) as (mr & Er & Hr & Hpr).
  destruct (@search_android12_in_section P j e1 k s x e2 T
              Hj He1 Hk Hs He2 HP HT Hx Hqa) as (ma & Ea & Ha & Hpa).
  destruct (@replace_keeps color_open android12_open _ mr h ma x
              color_open_qlast android12_open_qlast Hh Er Ea
              (eq_sym (Ha x)) (or_intror (eq_trans Hpa (eq_sym Hpr))))
    as (m2 & E2 & H2 & _).
  change (field_pattern android12_open) with pattern_android12 in E2.
  rewrite update_pubspec_unfold, Hw, Er, E2, <- H2, Hr.
  assert (Hf : forall y,
             P ++ android12_lines j e1 k s y e2 ++ T
             = (P ++ j ++ str "android_12:" ++ e1 ++ NL :: k ++ str "color:"
                  ++ s ++ [QUOTE])
                 ++ y ++ (QUOTE :: e2 ++ T)).
  { intros y. unfold android12_lines, color_line. app_eq. }
  destruct (text_eqb (P ++ android12_lines j e1 k s h e2 ++ T)
              (P ++ android12_lines j e1 k s x e2 ++ T)) eqn:E.
  - apply text_eqb_eq in E.
    rewrite !Hf in E. apply app_inv_head, app_inv_tail in E.
    subst x. rewrite text_eqb_refl. simpl. rewrite Hw. auto.
  - simpl. repeat split.
    + destruct (text_eqb x h) eqn:Exh; [|reflexivity].
      apply text_eqb_eq in Exh. subst x. rewrite text_eqb_refl in E.
      discriminate.
    + intros ->. rewrite text_eqb_refl in E. discriminate.
Qed.

(** The section first, under other lines, with a blank line after the key;
    the root-level colour line after it holds a word. *)
Lemma update_pubspec_nested_first_witness :
  let P := str "name: app" ++ [NL] ++ str "flutter_native_splash:" ++ [NL] in
  let T := NL :: str "  color: " ++ QUOTE :: str "none" ++ [QUOTE; NL] in
  let w :=
    World []
      (P ++ android12_lines (str "  ") [32; NL] (str "    ") (str " ")
              (str "#111111") [] ++ T) [] in
  fst (update_pubspec (str "#2196F3") w) = Return true
  /\ pubspec (snd (update_pubspec (str "#2196F3") w))
     = P ++ android12_lines (str "  ") [32; NL] (str "    ") (str " ")
              (str "#2196F3") [] ++ T
  /\ (str "#111111" = str "#2196F3" ->
      snd (update_pubspec (str "#2196F3") w) = w).
Proof.
  intros P T w.
  exact (@update_pubspec_nested_first (str "#2196F3") w P (str "  ") [32; NL]
           (str "    ") (str " ") (str "#111111") [] T
           eq_refl eq_refl eq_refl eq_refl eq_refl eq_refl eq_refl eq_refl).
Defined.

(** Where the root pattern matches: a line start, white space, the key
    [color:], white space, and the quoted value. *)
Lemma match_here_root_sound prev s cs rest :
  match_here pattern_root prev s = Some (cs, rest) ->
  exists w0 w1 val ws,
    s = w0 ++ str "color:" ++ w1 ++ QUOTE :: val ++ QUOTE :: ws ++ rest
    /\ all is_space w0 /\ all is_space w1 /\ all is_space ws
    /\ valstr val /\ at_bol prev = true /\ at_eol rest = true.
Proof.
  intros H. unfold match_here in H. apply run_sound in H.
  destruct H as (w & rest' & cs' & -> & Hden & HK).
  inversion HK; subst cs' rest'. clear HK.
  cbv [pattern_root color_open group_close str lit List.map
         list_ascii_of_string] in Hden.
  simpl den in Hden.
  repeat match goal with
         | H : exists _, _ |- _ => destruct H
         | H : _ /\ _ |- _ => destruct H
         end.
  subst.
  match goal with
  | H1 : all is_space ?a, H2 : all is_space ?b, H3 : all is_space ?c,
    H6 : all is_val ?v |- _ =>
      exists a, b, v, c;
      solve [repeat split; auto; app_eq]
  end.
Qed.

(** A text is cut at its first character outside a class in one way
    only. *)
Lemma split_first_outside p : forall a a' b b' x x',
    all p a -> all p a' -> p x = false -> p x' = false ->
    a ++ x :: b = a' ++ x' :: b' -> a = a' /\ b = b'.
Proof.
  induction a as [|y a IH]; intros [|y' a'] b b' x x' Ha Ha' Hx Hx' H;
    simpl in *.
  - inversion H. auto.
  - inversion H; subst. inversion Ha'; subst. congruence.
  - inversion H; subst. inversion Ha; subst. congruence.
  - inversion H; subst. inversion Ha; subst. inversion Ha'; subst.
    destruct (IH a' b b' x x') as [-> ->]; auto.
Qed.

Lemma split_last_outside p a a' b b' x :
  all p b -> all p b' -> p x = false ->
  a ++ x :: b = a' ++ x :: b' -> a = a' /\ b = b'.
Proof.
  intros Hb Hb' Hx H. apply (f_equal (@rev char)) in H.
  rewrite !rev_app_distr in H. simpl in H. rewrite <- !app_assoc in H.
  simpl in H.
  destruct (@split_first_outside p (rev b) (rev b') (rev a) (rev a') x x)
    as [E1 E2]; auto; try (now apply Forall_rev).
  apply (f_equal (@rev char)) in E1, E2.
  rewrite !rev_involutive in E1, E2. auto.
Qed.

(** X13: the key has to start its line: a key that only ends in [color:],
    such as [icon_background_color:], is not taken for the colour field.
    In a manifest whose only quoted string is the value of such a key the
    root pattern matches nowhere and [update_pubspec] exits. *)
Theorem root_pattern_key_starts_line h w A1 c ws1 v C :
  HexColorString h = true ->
  pubspec w = A1 ++ c :: str "color:" ++ ws1 ++ QUOTE :: v ++ QUOTE :: C ->
  has_quote A1 = false -> (c =? QUOTE) = false -> has_quote ws1 = false ->
  has_quote v = false -> has_quote C = false ->
  forallb is_space ws1 = true -> is_space c = false ->
  search pattern_root (pubspec w) = None
  /\ update_pubspec h w = (SystemExit msg_pubspec, w).
Proof.
  intros Hh Hw HA Hcq H1q Hv HC H1 Hc.
  apply has_quote_false in HA, H1q, Hv, HC. apply forallb_all in H1.
  apply N.eqb_neq in Hcq.
  assert (Hnone : search pattern_root (pubspec w) = None).
  { destruct (search pattern_root (pubspec w)) as [m|] eqn:E; [|reflexivity].
    exfalso. apply search_from_sound in E.
    destruct E as (sk & s' & Hsk & _ & Hmh). rewrite app_nil_r in Hmh.
    apply match_here_root_sound in Hmh.
    destruct Hmh as (w0 & w1 & val & ws & Hs' & H0 & Hw1 & Hws & Hval & Hbol & _).
    set (A := A1 ++ c :: str "color:" ++ ws1) in *.
    assert (HAq : ~ In QUOTE A).
    { unfold A. intros Hin. apply in_app_or in Hin. destruct Hin as [Hin|Hin];
        [now apply HA|].
      destruct Hin as [Hin|Hin]; [now apply Hcq|].
      apply in_app_or in Hin. destruct Hin as [Hin|Hin]; [|now apply H1q].
      simpl in Hin. repeat destruct Hin as [Hin|Hin]; try discriminate.
      contradiction. }
    assert (Ht : pubspec w = A ++ QUOTE :: v ++ QUOTE :: C)
      by (rewrite Hw; unfold A; app_eq).
    assert (Hfr : pubspec w
                  = (sk ++ w0 ++ str "color:" ++ w1)
                      ++ QUOTE :: val ++ QUOTE :: (ws ++ m_post m))
      by (rewrite Hsk, Hs'; app_eq).
    assert (Hq : quotes (pubspec w) = 2%nat).
    { rewrite Ht, quotes_app, quotes_cons_quote, quotes_app, quotes_cons_quote.
      apply quotes_zero in HAq, Hv, HC. lia. }
    rewrite Hfr in Hq.
    rewrite !quotes_app, !quotes_cons_quote, !quotes_app, !quotes_cons_quote
      in Hq.
    assert (Hz : ~ In QUOTE (sk ++ w0 ++ str "color:" ++ w1))
      by (apply quotes_zero; rewrite !quotes_app; lia).
    rewrite Ht in Hfr.
    destruct (split_first_quote _ _ _ _ HAq Hz Hfr) as [HAeq _].
    unfold A in HAeq.
    assert (Hcut : (A1 ++ c :: str "color") ++ 58 :: ws1
                   = (sk ++ w0 ++ str "color") ++ 58 :: w1)
      by (transitivity (A1 ++ c :: str "color:" ++ ws1);
          [app_eq|rewrite HAeq; app_eq]).
    destruct (@split_last_outside is_space _ _ _ _ 58 H1 Hw1 eq_refl Hcut)
      as [Hcut' _].
    assert (Hend : A1 ++ [c] = sk ++ w0).
    { apply (app_inv_tail (str "color")).
      transitivity (A1 ++ c :: str "color"); [app_eq|].
      rewrite Hcut'. app_eq. }
    destruct w0 as [|y w0] using rev_ind.
    - rewrite app_nil_r in Hend. subst sk.
      rewrite rev_app_distr in Hbol. simpl in Hbol.
      apply N.eqb_eq in Hbol. subst c. discriminate.
    - rewrite app_assoc in Hend. apply app_inj_tail in Hend.
      destruct Hend as [_ ->].
      apply Forall_app in H0. destruct H0 as [_ Hy].
      inversion Hy; subst. congruence. }
  split; [exact Hnone|]. now rewrite update_pubspec_unfold, Hnone.
Qed.

Lemma root_pattern_key_starts_line_witness :
  let w :=
    World []
      (str "  android_12:" ++ [NL] ++ str "    icon_background_color: "
         ++ QUOTE :: str "#111111" ++ QUOTE :: [NL]) [] in
  search pattern_root (pubspec w) = None
  /\ update_pubspec (str "#2196F3") w = (SystemExit msg_pubspec, w).
Proof.
  exact (@root_pattern_key_starts_line (str "#2196F3")
           (World []
              (str "  android_12:" ++ [NL] ++ str "    icon_background_color: "
                 ++ QUOTE :: str "#111111" ++ QUOTE :: [NL]) [])
           (str "  android_12:" ++ [NL] ++ str "    icon_background")
           95 (str " ") (str "#111111") [NL]
           eq_refl eq_refl eq_refl eq_refl eq_refl eq_refl eq_refl eq_refl
           eq_refl).
Defined.
